(** * ccc-fb-generator: rate limiter, scheduling queue and content discovery

    A shallow embedding of
      - [src/services/rate-limiter.ts]    (the [RateLimiter] durable object and
                                           the [RateLimitService] in front of it),
      - the [DatabaseService] scheduling operations together with the
        [scheduling_queue] table of [schema.sql],
      - [src/services/content-discovery.ts] (quality scoring, the Reddit and
        news sources and the aggregation in [discoverContent]),
    followed by the properties of these operations.

    Conventions.  JavaScript [number]s that hold counters, limits and
    epoch-millisecond timestamps are integers ([Z]); the quality scores, which
    are fractions, are exact rationals ([Q]), so floating-point rounding is not
    part of the model.  [Date.now()] is an explicit argument of every operation
    that reads the clock.  An [await] is a plain sequencing point: operations
    on the durable object are executed one after the other, and an awaited
    call is answered; the module [Awaited] gives the discovery methods over
    calls that may stay without an answer.  Strings are sequences of bytes,
    which is what the JavaScript strings are on ASCII text.  Calls to the
    logger have no effect on the results and are left out. *)

From Stdlib Require Import ZArith QArith Qminmax Lia Lqa List Ascii String Permutation Sorted.
From Stdlib Require Import DecimalString.
From stdpp Require Import gmap strings.

Local Open Scope Z_scope.

(** ** Exceptions *)

(** A computation either returns a value or throws. *)
Inductive Outcome (A : Type) : Type :=
| Ok (a : A)
| Throw (e : string).
Arguments Ok {A} a.
Arguments Throw {A} e.

Definition bind {A B : Type} (m : Outcome A) (k : A -> Outcome B) : Outcome B :=
  match m with
  | Ok a => k a
  | Throw e => Throw e
  end.

(** [try { m } catch (error) { h error }] *)
Definition try_catch {A : Type} (m : Outcome A) (h : string -> A) : A :=
  match m with
  | Ok a => a
  | Throw e => h e
  end.

(** [Math.ceil(a / b)] for integers [a] and [b > 0]. *)
Definition ceil_div (a b : Z) : Z := - ((- a) / b).

(** ** The rate limiter durable object *)

Module RateLimiter.

(** The value kept per key: [{ count, resetTime }]. *)
Record Window : Type := { count : Z; resetTime : Z }.

Record RateLimitResult : Type := {
  allowed : bool;
  remaining : Z;
  result_resetTime : Z;          (* the field [resetTime] of the result *)
  retryAfter : option Z          (* [undefined] is [None] *)
}.

(** The object: the in-memory [requests] map and the durable
    [state.storage].  Storage hands out and keeps copies, so both are maps
    of values. *)
Record t : Type := {
  requests : gmap string Window;
  storage : gmap string Window
}.

(** [constructor]: a fresh [requests] map over whatever the storage holds. *)
Definition new (st : gmap string Window) : t :=
  {| requests := ∅; storage := st |}.

Definition set_request (key : string) (w : Window) (s : t) : t :=
  {| requests := <[key := w]> (requests s); storage := storage s |}.

Definition storage_put (key : string) (w : Window) (s : t) : t :=
  {| requests := requests s; storage := <[key := w]> (storage s) |}.

(** The window the object holds for [key]: the one in memory, else the
    one in storage. *)
Definition stored_window (key : string) (s : t) : option Window :=
  match requests s !! key with
  | Some c => Some c
  | None => storage s !! key
  end.

(** The window a check of [key] starts from: the stored one, else a fresh
    one. *)
Definition load (now : Z) (key : string) (windowMs : Z) (s : t) : Window :=
  default {| count := 0; resetTime := now + windowMs |} (stored_window key s).

(** [checkRateLimit].  [current] is the object held by [requests]; the code
    puts it back under [key] after every change, and so does the model. *)
Definition checkRateLimit (now : Z) (key : string) (maxRequests windowMs : Z)
    (s : t) : RateLimitResult * t :=
  (* Get current state from storage or memory *)
  let '(current, s) :=
    match requests s !! key with
    | Some c => (c, s)
    | None =>
        let c := default {| count := 0; resetTime := now + windowMs |}
                         (storage s !! key) in
        (c, set_request key c s)
    end in
  (* Reset if window has expired *)
  let '(current, s) :=
    if now >=? resetTime current
    then let c := {| count := 0; resetTime := now + windowMs |} in
         (c, set_request key c s)
    else (current, s) in
  (* Check if request is allowed *)
  let allowed := count current <? maxRequests in
  let '(current, s) :=
    if allowed
    then let c := {| count := count current + 1; resetTime := resetTime current |} in
         (c, storage_put key c (set_request key c s))
    else (current, s) in
  ({| allowed := allowed;
      remaining := Z.max 0 (maxRequests - count current);
      result_resetTime := resetTime current;
      retryAfter := if allowed then None
                    else Some (ceil_div (resetTime current - now) 1000) |},
   s).

(** The two steps of a check on the window it starts from: the reset of an
    expired window, and the increment of an allowed request. *)
Definition expire (now windowMs : Z) (c : Window) : Window :=
  if now >=? resetTime c then {| count := 0; resetTime := now + windowMs |} else c.

Definition admit_one (maxRequests : Z) (c : Window) : Window :=
  if count c <? maxRequests
  then {| count := count c + 1; resetTime := resetTime c |} else c.

(** [handleReset], on the key of the request body. *)
Definition reset (key : string) (s : t) : t :=
  {| requests := delete key (requests s); storage := delete key (storage s) |}.

(** *** Requests and responses of [fetch] *)

(** The JSON body of a request.  [handleReset] reads [key] only. *)
Record Body : Type := {
  key : string;
  maxRequests : Z;
  windowMs : Z
}.

Record Request : Type := { pathname : string; body : Body }.

Inductive Json : Type :=
| JResult (r : RateLimitResult)
| JSuccess (success : bool).

Inductive ResponseBody : Type :=
| JsonBody (j : Json)
| TextBody (s : string).

Record Response : Type := { status : Z; response_body : ResponseBody }.

(** [response.json()]: a body that is not JSON makes it throw. *)
Definition json (r : Response) : Outcome Json :=
  match response_body r with
  | JsonBody j => Ok j
  | TextBody _ => Throw "SyntaxError"
  end.

(** [s.split('/').pop()]: what follows the last slash. *)
Fixpoint last_segment_from (acc : string) (s : string) : string :=
  match s with
  | EmptyString => acc
  | String c rest =>
      if Ascii.eqb c "/"%char
      then last_segment_from EmptyString rest
      else last_segment_from (acc +:+ String c EmptyString) rest
  end.

Definition last_segment (s : string) : string := last_segment_from EmptyString s.

Definition handleCheck (now : Z) (request : Request) (s : t) : Response * t :=
  let b := body request in
  let '(result, s) := checkRateLimit now (key b) (maxRequests b) (windowMs b) s in
  ({| status := 200; response_body := JsonBody (JResult result) |}, s).

Definition handleReset (request : Request) (s : t) : Response * t :=
  ({| status := 200; response_body := JsonBody (JSuccess true) |},
   reset (key (body request)) s).

Definition fetch (now : Z) (request : Request) (s : t) : Response * t :=
  let action := last_segment (pathname request) in
  if String.eqb action "check" then handleCheck now request s
  else if String.eqb action "reset" then handleReset request s
  else ({| status := 404; response_body := TextBody "Not Found" |}, s).

(** *** Histories of the object *)

(** What can happen to the object: a check, a reset, or its eviction from
    memory, after which [constructor] runs again over the same storage. *)
Inductive Op : Type :=
| OpCheck (now : Z) (key : string) (maxRequests windowMs : Z)
| OpReset (key : string)
| OpRestart.

Definition step (s : t) (o : Op) : t :=
  match o with
  | OpCheck now k m w => snd (checkRateLimit now k m w s)
  | OpReset k => reset k s
  | OpRestart => new (storage s)
  end.

Definition run (ops : list Op) (s : t) : t := fold_left step ops s.

(** Every check of key [k] in the history asks for the limit [m]. *)
Definition uses_limit (k : string) (m : Z) (o : Op) : Prop :=
  match o with
  | OpCheck _ k' m' _ => k' = k -> m' = m
  | _ => True
  end.

(** The counts held for [k], in memory and in storage, are at most [m]. *)
Definition count_bounded (k : string) (m : Z) (s : t) : Prop :=
  (forall w, requests s !! k = Some w -> count w <= m) /\
  (forall w, storage s !! k = Some w -> count w <= m).

(** A run of checks of one key, all with the same limit and window
    length, at the given times, with their results in order. *)
Fixpoint checks (k : string) (m w : Z) (times : list Z) (s : t)
    : list RateLimitResult * t :=
  match times with
  | [] => ([], s)
  | now :: rest =>
      let '(r, s) := checkRateLimit now k m w s in
      let '(rs, s) := checks k m w rest s in
      (r :: rs, s)
  end.

(** What a check at position [i] of a run answers inside a window that
    ends at [R] and held [c] requests when the run began. *)
Definition expected (m R c : Z) (i : nat) (now : Z) : RateLimitResult :=
  let j := c + Z.of_nat i in
  {| allowed := j <? m;
     remaining := Z.max 0 (m - j - 1);
     result_resetTime := R;
     retryAfter := if j <? m then None else Some (ceil_div (R - now) 1000) |}.

Fixpoint expected_from (m R c : Z) (i : nat) (times : list Z) : list RateLimitResult :=
  match times with
  | [] => []
  | now :: rest => expected m R c i now :: expected_from m R c (S i) rest
  end.

End RateLimiter.

(** ** The service in front of the durable object *)

Module RateLimitService.

(** [RateLimitConfig]; its optional [keyGenerator] is not read by
    [checkRateLimit]. *)
Record RateLimitConfig : Type := { maxRequests : Z; windowMs : Z }.

Section Service.

(** The world behind the binding [env.RATE_LIMITER]. *)
Context {W : Type}.

(** [env.RATE_LIMITER.get(env.RATE_LIMITER.idFromName(name)).fetch(request)]:
    the call reaches an object and changes the world, or it throws. *)
Variable RATE_LIMITER :
  string -> RateLimiter.Request -> W -> Outcome RateLimiter.Response * W.

Definition check_request (key : string) (config : RateLimitConfig)
    : RateLimiter.Request :=
  {| RateLimiter.pathname := "/check";
     RateLimiter.body :=
       {| RateLimiter.key := key;
          RateLimiter.maxRequests := maxRequests config;
          RateLimiter.windowMs := windowMs config |} |}.

(** [now] is the [Date.now()] of the [catch] block.  The value returned
    in the [try] block is whatever JSON the response carries. *)
Definition checkRateLimit (now : Z) (key : string) (config : RateLimitConfig)
    (w : W) : RateLimiter.Json * W :=
  let '(response, w) := RATE_LIMITER "global" (check_request key config) w in
  (try_catch (bind response RateLimiter.json)
     (fun _ =>
        (* Fail open - allow request if rate limiter is down *)
        RateLimiter.JResult
          {| RateLimiter.allowed := true;
             RateLimiter.remaining := maxRequests config;
             RateLimiter.result_resetTime := now + windowMs config;
             RateLimiter.retryAfter := None |}),
   w).

End Service.

(** Two bindings: one that delivers every request to the object, whose
    clock reads [clock], and one whose object cannot be reached. *)
Definition reachable (clock : Z) (name : string) (request : RateLimiter.Request)
    (s : RateLimiter.t) : Outcome RateLimiter.Response * RateLimiter.t :=
  let '(r, s) := RateLimiter.fetch clock request s in (Ok r, s).

Definition unreachable (name : string) (request : RateLimiter.Request)
    (s : RateLimiter.t) : Outcome RateLimiter.Response * RateLimiter.t :=
  (Throw "Network connection lost.", s).

End RateLimitService.

(** ** Values of an [any] parameter *)

Module Json.

(** A value as a condition and [JSON.stringify] read it.  A number is an
    integer that prints in full (below [10^21] in size); a string is its
    code units below 256; an object or an array is given by the text
    [JSON.stringify] makes of it.  [undefined] is an absent value. *)
Inductive Value : Type :=
| JNull
| JBool (b : bool)
| JNumber (n : Z)
| JString (s : string)
| JObject (json : string).

(** [if (value)] *)
Definition truthy (v : Value) : bool :=
  match v with
  | JNull => false
  | JBool b => b
  | JNumber n => negb (n =? 0)
  | JString s => negb (String.eqb s "")
  | JObject _ => true
  end.

Definition hex_digit (n : nat) : ascii :=
  nth n (list_ascii_of_string "0123456789abcdef") "0"%char.

(** The escape of one code unit inside a JSON string. *)
Definition escape (c : ascii) : string :=
  let n := nat_of_ascii c in
  if (n =? 8)%nat then "\b"
  else if (n =? 9)%nat then "\t"
  else if (n =? 10)%nat then "\n"
  else if (n =? 12)%nat then "\f"
  else if (n =? 13)%nat then "\r"
  else if (n =? 34)%nat then String "\" (String "034" EmptyString)
  else if (n =? 92)%nat then "\\"
  else if (n <? 32)%nat
       then "\u00" +:+ String (hex_digit (n / 16)) (String (hex_digit (n mod 16)) EmptyString)
  else String c EmptyString.

Fixpoint escape_all (s : string) : string :=
  match s with
  | EmptyString => EmptyString
  | String c rest => escape c +:+ escape_all rest
  end.

(** [JSON.stringify(value)] *)
Definition stringify (v : Value) : string :=
  match v with
  | JNull => "null"
  | JBool true => "true"
  | JBool false => "false"
  | JNumber n => NilZero.string_of_int (Z.to_int n)
  | JString s => String "034" (escape_all s +:+ String "034" EmptyString)
  | JObject json => json
  end.

End Json.

(** ** The scheduling operations of [DatabaseService] *)

Module Database.

Inductive ContentType : Type := image | video | text | meme | story.

Inductive ContentStatus : Type :=
| content_pending | content_generating | content_ready | content_approved
| content_rejected | content_scheduled | content_posted | content_failed.

(** A row of the [content] table. *)
Record ContentRecord : Type := {
  content_id_of : string;                    (* column [id] *)
  type : ContentType;
  source : option string;
  source_url : option string;
  prompt : option string;
  generated_content_url : option string;
  caption : option string;
  hashtags : option string;
  content_status : ContentStatus;            (* column [status] *)
  ai_provider : option string;
  generation_metadata : option string;
  content_created_at : string;
  content_updated_at : string;
  scheduled_at : option string;
  posted_at : option string
}.

(** The [status] column of [scheduling_queue], as its CHECK constraint and
    the type [SchedulingQueueItem['status']] give it. *)
Inductive QueueStatus : Type :=
| queued | scheduled | posting | posted | failed | cancelled.

Definition QueueStatus_eqb (a b : QueueStatus) : bool :=
  match a, b with
  | queued, queued | scheduled, scheduled | posting, posting
  | posted, posted | failed, failed | cancelled, cancelled => true
  | _, _ => false
  end.

(** A row of the [scheduling_queue] table. *)
Record SchedulingQueueItem : Type := {
  id : Z;
  content_id : string;
  scheduled_time : string;
  fb_post_id : option string;
  status : QueueStatus;
  retry_count : Z;
  error_message : option string;
  created_at : string;
  updated_at : string
}.

(** The database [env.DB]: the two tables, the AUTOINCREMENT counter of
    [scheduling_queue] (the largest row id it ever held) and whether
    foreign keys are enforced. *)
Record DB : Type := {
  content : list ContentRecord;
  scheduling_queue : list SchedulingQueueItem;
  sqlite_sequence : Z;
  foreign_keys : bool
}.

(** An optional string argument is used when it is truthy. *)
Definition truthy (o : option string) : bool :=
  match o with
  | Some s => negb (String.eqb s "")
  | None => false
  end.

(** The trigger [update_content_timestamp]: a row whose update left
    [updated_at] as it was gets CURRENT_TIMESTAMP. *)
Definition content_trigger (current_timestamp : string) (old new : ContentRecord)
    : ContentRecord :=
  if String.eqb (content_updated_at new) (content_updated_at old)
  then {| content_id_of := content_id_of new; type := type new;
          source := source new; source_url := source_url new;
          prompt := prompt new;
          generated_content_url := generated_content_url new;
          caption := caption new; hashtags := hashtags new;
          content_status := content_status new;
          ai_provider := ai_provider new;
          generation_metadata := generation_metadata new;
          content_created_at := content_created_at new;
          content_updated_at := current_timestamp;
          scheduled_at := scheduled_at new; posted_at := posted_at new |}
  else new.

(** [updateContentStatus]: [now] and [now_posted] are its two readings of
    [new Date().toISOString()]; [metadata] is [None] when the argument is
    left out.  The metadata is written when it is truthy. *)
Definition updateContentStatus (now now_posted current_timestamp : string)
    (cid : string) (st : ContentStatus) (metadata : option Json.Value) (db : DB) : DB :=
  let update (r : ContentRecord) : ContentRecord :=
    {| content_id_of := content_id_of r; type := type r;
       source := source r; source_url := source_url r; prompt := prompt r;
       generated_content_url := generated_content_url r;
       caption := caption r; hashtags := hashtags r;
       content_status := st;
       ai_provider := ai_provider r;
       generation_metadata :=
         match metadata with
         | Some m => if Json.truthy m then Some (Json.stringify m)
                     else generation_metadata r
         | None => generation_metadata r
         end;
       content_created_at := content_created_at r;
       content_updated_at := now;
       scheduled_at := scheduled_at r;
       posted_at :=
         match st with
         | content_posted => Some now_posted
         | _ => posted_at r
         end |} in
  {| content :=
       map (fun r => if String.eqb (content_id_of r) cid
                     then content_trigger current_timestamp r (update r)
                     else r)
           (content db);
     scheduling_queue := scheduling_queue db;
     sqlite_sequence := sqlite_sequence db;
     foreign_keys := foreign_keys db |}.

(** The trigger [update_scheduling_queue_timestamp]. *)
Definition queue_trigger (current_timestamp : string)
    (old new : SchedulingQueueItem) : SchedulingQueueItem :=
  if String.eqb (updated_at new) (updated_at old)
  then {| id := id new; content_id := content_id new;
          scheduled_time := scheduled_time new; fb_post_id := fb_post_id new;
          status := status new; retry_count := retry_count new;
          error_message := error_message new; created_at := created_at new;
          updated_at := current_timestamp |}
  else new.

(** The row id AUTOINCREMENT gives to the next row. *)
Definition next_rowid (db : DB) : Z :=
  fold_right Z.max (sqlite_sequence db) (map id (scheduling_queue db)) + 1.

Definition has_content (cid : string) (db : DB) : bool :=
  existsb (fun r => String.eqb (content_id_of r) cid) (content db).

(** [getSchedulingQueueItem] *)
Definition getSchedulingQueueItem (i : Z) (db : DB) : Outcome SchedulingQueueItem :=
  match find (fun q => id q =? i) (scheduling_queue db) with
  | Some q => Ok q
  | None => Throw "Scheduling queue item not found"
  end.

(** [scheduleContent].  The INSERT fails on a [content_id] without a row in
    [content] when foreign keys are enforced.  [now] is the reading of the
    clock in [scheduleContent], [now'] the one in [updateContentStatus]. *)
Definition scheduleContent (now now' current_timestamp : string)
    (contentId scheduledTime : string) (db : DB)
    : Outcome SchedulingQueueItem * DB :=
  if foreign_keys db && negb (has_content contentId db)
  then (Throw "FOREIGN KEY constraint failed", db)
  else
    let last_row_id := next_rowid db in
    let row := {| id := last_row_id; content_id := contentId;
                  scheduled_time := scheduledTime; fb_post_id := None;
                  status := queued; retry_count := 0; error_message := None;
                  created_at := now; updated_at := now |} in
    let db := {| content := content db;
                 scheduling_queue := scheduling_queue db ++ [row];
                 sqlite_sequence := last_row_id;
                 foreign_keys := foreign_keys db |} in
    (* Update content status *)
    let db := updateContentStatus now' now' current_timestamp
                contentId content_scheduled None db in
    (getSchedulingQueueItem last_row_id db, db).

(** [updateSchedulingQueueStatus]: one UPDATE of the rows with this [id]. *)
Definition updateSchedulingQueueStatus (now current_timestamp : string)
    (i : Z) (st : QueueStatus) (fbPostId errorMessage : option string)
    (db : DB) : DB :=
  let update (q : SchedulingQueueItem) : SchedulingQueueItem :=
    {| id := id q; content_id := content_id q;
       scheduled_time := scheduled_time q;
       fb_post_id := if truthy fbPostId then fbPostId else fb_post_id q;
       status := st;
       retry_count := if truthy errorMessage then retry_count q + 1
                      else retry_count q;
       error_message := if truthy errorMessage then errorMessage
                        else error_message q;
       created_at := created_at q;
       updated_at := now |} in
  {| content := content db;
     scheduling_queue :=
       map (fun q => if id q =? i
                     then queue_trigger current_timestamp q (update q)
                     else q)
           (scheduling_queue db);
     sqlite_sequence := sqlite_sequence db;
     foreign_keys := foreign_keys db |}.

(** The operations of the scheduling component, as a history. *)
Inductive Op : Type :=
| OpSchedule (now now' current_timestamp contentId scheduledTime : string)
| OpUpdate (now current_timestamp : string) (i : Z) (st : QueueStatus)
           (fbPostId errorMessage : option string).

Definition step (db : DB) (o : Op) : DB :=
  match o with
  | OpSchedule now now' ts c t => snd (scheduleContent now now' ts c t db)
  | OpUpdate now ts i st fb err => updateSchedulingQueueStatus now ts i st fb err db
  end.

Definition run (ops : list Op) (db : DB) : DB := fold_left step ops db.

(** Queue items that have not reached a final status. *)
Definition non_terminal (st : QueueStatus) : bool :=
  match st with
  | queued | scheduled | posting => true
  | posted | failed | cancelled => false
  end.

Definition active_items (cid : string) (db : DB) : list SchedulingQueueItem :=
  List.filter (fun q => String.eqb (content_id q) cid && non_terminal (status q))
              (scheduling_queue db).

(** The lifecycle graph as the specification declares it:
    queued -> scheduled -> posting -> posted | failed, failed -> queued,
    and every non-terminal state -> cancelled. *)
Definition declared_edge (a b : QueueStatus) : bool :=
  match a, b with
  | queued, scheduled | scheduled, posting
  | posting, posted | posting, failed
  | failed, queued => true
  | (queued | scheduled | posting), cancelled => true
  | _, _ => false
  end.

(** *** Content rows *)

(** The argument of [createContent]: a [Partial<ContentRecord>]. *)
Record PartialContent : Type := {
  p_id : option string;
  p_type : option ContentType;
  p_source : option string;
  p_source_url : option string;
  p_prompt : option string;
  p_generated_content_url : option string;
  p_caption : option string;
  p_hashtags : option string;
  p_status : option ContentStatus;
  p_ai_provider : option string;
  p_generation_metadata : option string;
  p_created_at : option string;
  p_updated_at : option string;
  p_scheduled_at : option string;
  p_posted_at : option string
}.

(** [x || null] for an optional string. *)
Definition or_null (o : option string) : option string :=
  if truthy o then o else None.

(** [getContentById] *)
Definition getContentById (cid : string) (db : DB) : Outcome ContentRecord :=
  match find (fun r => String.eqb (content_id_of r) cid) (content db) with
  | Some r => Ok r
  | None => Throw "Content not found"
  end.

(** [createContent].  [uuid] is what [crypto.randomUUID()] returns and
    [now] the reading of the clock.  The INSERT fails when the id, the
    primary key of the table, is taken. *)
Definition createContent (uuid now : string) (c : PartialContent) (db : DB)
    : Outcome ContentRecord * DB :=
  let cid := match p_id c with
             | Some i => if String.eqb i "" then uuid else i
             | None => uuid
             end in
  let row :=
    {| content_id_of := cid;
       type := default text (p_type c);
       source := or_null (p_source c);
       source_url := or_null (p_source_url c);
       prompt := or_null (p_prompt c);
       generated_content_url := or_null (p_generated_content_url c);
       caption := or_null (p_caption c);
       hashtags := or_null (p_hashtags c);
       content_status := default content_pending (p_status c);
       ai_provider := or_null (p_ai_provider c);
       generation_metadata := or_null (p_generation_metadata c);
       content_created_at := now;
       content_updated_at := now;
       scheduled_at := or_null (p_scheduled_at c);
       posted_at := or_null (p_posted_at c) |} in
  if has_content cid db
  then (Throw "UNIQUE constraint failed: content.id", db)
  else
    let db := {| content := content db ++ [row];
                 scheduling_queue := scheduling_queue db;
                 sqlite_sequence := sqlite_sequence db;
                 foreign_keys := foreign_keys db |} in
    (getContentById cid db, db).

(** The columns of a queue item that no operation writes after the
    INSERT. *)
Definition fixed_columns (q : SchedulingQueueItem) : Z * string * string * string :=
  (id q, content_id q, scheduled_time q, created_at q).

(** The updates of item [i] in a history that carry an error message. *)
Definition is_failure (i : Z) (o : Op) : bool :=
  match o with
  | OpUpdate _ _ j _ _ err => (j =? i) && truthy err
  | OpSchedule _ _ _ _ _ => false
  end.

Definition failures (i : Z) (ops : list Op) : Z :=
  Z.of_nat (length (List.filter (is_failure i) ops)).

(** What a history keeps of a queue item [q] in its later state [q']: the
    fixed columns, a retry count grown by [n], and a post id once it has
    one. *)
Definition carries_on (n : Z) (q q' : SchedulingQueueItem) : Prop :=
  fixed_columns q' = fixed_columns q /\
  retry_count q' = retry_count q + n /\
  (truthy (fb_post_id q) = true -> truthy (fb_post_id q') = true).

End Database.

(** ** Strings and arrays of the JavaScript library *)

Module Js.

(** [s.toLowerCase()], on ASCII text. *)
Definition lower_ascii (c : ascii) : ascii :=
  let n := nat_of_ascii c in
  if ((65 <=? n) && (n <=? 90))%nat then ascii_of_nat (n + 32) else c.

Fixpoint toLowerCase (s : string) : string :=
  match s with
  | EmptyString => EmptyString
  | String c rest => String (lower_ascii c) (toLowerCase rest)
  end.

(** [s.includes(needle)] *)
Fixpoint includes (needle s : string) : bool :=
  String.prefix needle s ||
  match s with
  | EmptyString => false
  | String _ rest => includes needle rest
  end.

(** [s.endsWith(suffix)], the [$] of a regular expression. *)
Fixpoint endsWith (suffix s : string) : bool :=
  String.eqb s suffix ||
  match s with
  | EmptyString => false
  | String _ rest => endsWith suffix rest
  end.

(** [s.replace(/&amp;/g, '&')] *)
Fixpoint unescape_amp (fuel : nat) (s : string) : string :=
  match fuel, s with
  | O, _ => s
  | _, EmptyString => EmptyString
  | S fuel, String c rest =>
      if String.prefix "&amp;" s
      then String "&" (unescape_amp fuel (String.substring 5 (String.length s - 5) s))
      else String c (unescape_amp fuel rest)
  end.

(** [a.slice(0, e)] for an integer [e]: a negative end counts from the
    end of the array. *)
Definition slice0 {A : Type} (e : Z) (l : list A) : list A :=
  let len := Z.of_nat (length l) in
  let stop := if e <? 0 then Z.max (len + e) 0 else Z.min e len in
  firstn (Z.to_nat stop) l.

(** The outcome [Promise.allSettled] reports for one promise. *)
Inductive Settled (A : Type) : Type :=
| Fulfilled (value : A)
| Rejected (reason : string).
Arguments Fulfilled {A} value.
Arguments Rejected {A} reason.

Section Sort.
Context {A : Type}.
(** The comparator: a negative value puts its first argument first. *)
Variable compareFn : A -> A -> Q.

(** [a.sort(compareFn)]: the sort is stable, so for a comparator that
    orders the elements consistently its result is the one stable
    insertion produces. *)
Fixpoint insert (x : A) (l : list A) : list A :=
  match l with
  | [] => [x]
  | y :: ys => if Qle_bool (compareFn x y) 0 then x :: y :: ys
               else y :: insert x ys
  end.

Definition sort (l : list A) : list A := fold_right insert [] l.
End Sort.

(** The 32-bit integer a bitwise operator makes of an integer. *)
Definition toInt32 (z : Z) : Z := (z + 2 ^ 31) mod 2 ^ 32 - 2 ^ 31.

Definition digit36 (d : Z) : ascii :=
  if d <? 10 then ascii_of_nat (Z.to_nat (48 + d))
  else ascii_of_nat (Z.to_nat (97 + d - 10)).

(** [n.toString(36)] for an integer [0 <= n < 2^32]; every step divides by
    [36], so [32] steps reach every digit. *)
Fixpoint toString36_from (fuel : nat) (n : Z) (acc : string) : string :=
  match fuel with
  | O => acc
  | S fuel =>
      let acc := String (digit36 (n mod 36)) acc in
      if n / 36 =? 0 then acc else toString36_from fuel (n / 36) acc
  end.

Definition toString36 (n : Z) : string := toString36_from 32 n EmptyString.

(** The code units below 256 that [trim] removes. *)
Definition is_space (c : ascii) : bool :=
  let n := nat_of_ascii c in
  ((9 <=? n) && (n <=? 13))%nat || (n =? 32)%nat || (n =? 160)%nat.

Fixpoint trimStart (s : string) : string :=
  match s with
  | EmptyString => EmptyString
  | String c rest => if is_space c then trimStart rest else s
  end.

Fixpoint trimEnd (s : string) : string :=
  match s with
  | EmptyString => EmptyString
  | String c rest =>
      let rest' := trimEnd rest in
      if is_space c && String.eqb rest' EmptyString then EmptyString
      else String c rest'
  end.

(** [s.trim()] *)
Definition trim (s : string) : string := trimEnd (trimStart s).

(** [s.split(',')[0]]: what precedes the first comma. *)
Fixpoint before_comma (s : string) : string :=
  match s with
  | EmptyString => EmptyString
  | String c rest =>
      if Ascii.eqb c ","%char then EmptyString else String c (before_comma rest)
  end.

(** [n.toString()] for an integer. *)
Definition toString (n : Z) : string := NilZero.string_of_int (Z.to_int n).

(** The code units of a string. *)
Definition chars (s : string) : list ascii := list_ascii_of_string s.

End Js.

(** ** Content discovery *)

Module Discovery.

Local Open Scope Q_scope.

Definition Qlt_bool (a b : Q) : bool := negb (Qle_bool b a).

Inductive Source : Type := reddit | twitter | news | web_scrape.

Definition Source_eqb (a b : Source) : bool :=
  match a, b with
  | reddit, reddit | twitter, twitter | news, news
  | web_scrape, web_scrape => true
  | _, _ => false
  end.

Inductive ContentType : Type := image | video | text | link.

(** [createdAt] is the time value of the [Date], in milliseconds. *)
Record DiscoveredContent : Type := {
  id : string;
  title : string;
  description : option string;
  imageUrl : option string;
  videoUrl : option string;
  sourceUrl : string;
  source : Source;
  sourceName : string;
  author : option string;
  score : option Z;
  engagementCount : option Z;
  createdAt : Z;
  tags : list string;
  contentType : ContentType;
  quality : Q
}.

(** A post of the Reddit listing.  [preview] holds, for each entry of
    [preview.images], its [source.url] when it has one; it is empty when the
    post has no preview.  [created_utc] is in seconds. *)
Record RedditPost : Type := {
  post_id : string;
  post_title : string;
  selftext : option string;
  url : string;
  thumbnail : option string;
  preview : list (option string);
  post_author : string;
  post_score : Z;
  num_comments : Z;
  created_utc : Z;
  subreddit : string;
  permalink : string;
  is_video : bool;
  over_18 : bool
}.

(** An article of the news API.  [publishedAt] is the time value, in
    milliseconds, of the date its text denotes. *)
Record NewsArticle : Type := {
  article_title : string;
  article_description : option string;
  article_url : string;
  urlToImage : option string;
  publishedAt : Z;
  source_id : option string;
  source_name : string;
  article_content : option string
}.

Definition truthy (o : option string) : bool :=
  match o with
  | Some s => negb (String.eqb s "")
  | None => false
  end.

(** [url.match(/\.(jpg|jpeg|png|gif)$/i)] *)
Definition is_image_url (u : string) : bool :=
  let l := Js.toLowerCase u in
  Js.endsWith ".jpg" l || Js.endsWith ".jpeg" l ||
  Js.endsWith ".png" l || Js.endsWith ".gif" l.

(** *** Quality scores *)

Definition calculateRedditQuality (now : Z) (post : RedditPost) : Q :=
  let quality := 0 in
  (* Score-based quality (0-0.4) *)
  let quality := quality + Qmin (inject_Z (post_score post) / 1000) (4 # 10) in
  (* Engagement-based quality (0-0.3) *)
  let quality :=
    if (0 <? num_comments post)%Z
    then quality + Qmin (inject_Z (num_comments post) / 100) (3 # 10)
    else quality in
  (* Content type bonus (0-0.2) *)
  let quality :=
    if is_video post || is_image_url (url post)
    then quality + (2 # 10) else quality in
  (* Recency bonus (0-0.1) *)
  let hoursOld := inject_Z (now - created_utc post * 1000) / inject_Z (1000 * 60 * 60) in
  let quality :=
    if Qlt_bool hoursOld 24
    then quality + (1 # 10) * (1 - hoursOld / 24) else quality in
  Qmin quality 1.

Definition reputableSources : list string :=
  ["bbc"; "cnn"; "reuters"; "associated press"; "npr"]%string.

Definition calculateNewsQuality (now : Z) (article : NewsArticle) : Q :=
  (* Base quality for news *)
  let quality := 5 # 10 in
  (* Has image bonus *)
  let quality := if truthy (urlToImage article) then quality + (2 # 10) else quality in
  (* Reputable source bonus *)
  let quality :=
    if existsb (fun s => Js.includes s (Js.toLowerCase (source_name article)))
               reputableSources
    then quality + (2 # 10) else quality in
  (* Recency bonus *)
  let hoursOld := inject_Z (now - publishedAt article) / inject_Z (1000 * 60 * 60) in
  let quality :=
    if Qlt_bool hoursOld 48
    then quality + (1 # 10) * (1 - hoursOld / 48) else quality in
  Qmin quality 1.

(** *** The Reddit source *)

Definition keep_post (post : RedditPost) : bool :=
  negb (over_18 post) &&               (* Filter NSFW content *)
  (10 <? post_score post)%Z &&         (* Minimum score threshold *)
  (Js.includes "i.redd.it" (url post) ||
   Js.includes "imgur.com" (url post) ||
   (0 <? length (preview post))%nat ||
   is_video post).

Definition to_content (now : Z) (sub : string) (post : RedditPost)
    : DiscoveredContent :=
  let has_preview := (0 <? length (preview post))%nat in
  let contentType :=
    if is_video post then video
    else if is_image_url (url post) || has_preview then image
    else if negb (String.eqb (url post)
                    ("https://www.reddit.com" +:+ permalink post)) then link
    else text in
  let imageUrl :=
    if is_video post then None
    else if is_image_url (url post) || has_preview then
      if is_image_url (url post) then Some (url post)
      else match preview post with
           | Some u :: _ => Some (Js.unescape_amp (String.length u) u)
           | _ => None
           end
    else None in
  {| id := "reddit_" +:+ post_id post;
     title := post_title post;
     description := option_map (String.substring 0 300) (selftext post);
     imageUrl := imageUrl;
     videoUrl := if is_video post then Some (url post) else None;
     sourceUrl := "https://www.reddit.com" +:+ permalink post;
     source := reddit;
     sourceName := sub;
     author := Some (post_author post);
     score := Some (post_score post);
     engagementCount := Some (num_comments post);
     createdAt := (created_utc post * 1000)%Z;
     tags := [sub; "reddit"%string];
     contentType := contentType;
     quality := calculateRedditQuality now post |}.

Definition parseRedditContent (now : Z) (posts : list RedditPost) (sub : string)
    : list DiscoveredContent :=
  map (to_content now sub) (List.filter keep_post posts).

Definition subreddits : list string :=
  ["cats"; "aww"; "catpictures"; "CatsBeingCats"; "IllegallySmolCats"]%string.

Section Reddit.
(** [cache.getCachedRedditData(subreddit, 3600)] gives the cached posts or
    [null]: [CacheService] catches every error of the store.
    [fetchRedditSubreddit(subreddit, limit)] returns [null] on every error.
    [cache.cacheRedditData] catches its own errors too and writes an entry
    that only a later run reads.  So nothing in the [try] block throws, and
    its [catch] block is not entered. *)
Variable getCachedRedditData : string -> option (list RedditPost).
Variable fetchRedditSubreddit : string -> Z -> option (list RedditPost).

Fixpoint reddit_loop (now limit : Z) (subs : list string)
    (discovered : list DiscoveredContent) : list DiscoveredContent :=
  match subs with
  | [] => discovered
  | sub :: rest =>
      (* Check cache first *)
      match getCachedRedditData sub with
      | Some posts =>
          reddit_loop now limit rest (discovered ++ parseRedditContent now posts sub)
      | None =>
          (* Fetch new content *)
          match fetchRedditSubreddit sub
                  (ceil_div limit (Z.of_nat (length subreddits))) with
          | Some posts =>
              reddit_loop now limit rest
                (discovered ++ parseRedditContent now posts sub)
          | None => reddit_loop now limit rest discovered
          end
      end
  end.

Definition discoverFromReddit (now limit : Z) : list DiscoveredContent :=
  Js.slice0 limit (reddit_loop now limit subreddits []).
End Reddit.

(** *** The Twitter source *)

Definition discoverFromTwitter (limit : Z) : list DiscoveredContent := [].

(** *** The news source *)

(** [hashString]: [hash = ((hash << 5) - hash) + char; hash = hash & hash]
    over the character codes, then [Math.abs(hash).toString(36)]. *)
Definition hash_step (hash : Z) (c : ascii) : Z :=
  let char := Z.of_nat (nat_of_ascii c) in
  let hash := (Js.toInt32 (Z.shiftl (Js.toInt32 hash) 5) - hash + char)%Z in
  Js.toInt32 (Z.land (Js.toInt32 hash) (Js.toInt32 hash)).

Definition hashString (str : string) : string :=
  Js.toString36 (Z.abs (fold_left hash_step (list_ascii_of_string str) 0%Z)).

Definition catKeywords : list string :=
  ["cat"; "cats"; "kitten"; "feline"; "pet"; "animal"]%string.

Definition negativeKeywords : list string :=
  ["death"; "died"; "killed"; "accident"; "abuse"; "cruelty"]%string.

Definition isRelevantNewsArticle (article : NewsArticle) : bool :=
  let title := Js.toLowerCase (article_title article) in
  let description :=
    Js.toLowerCase (default ""%string (article_description article)) in
  let hasPositiveKeyword :=
    existsb (fun keyword => Js.includes keyword title || Js.includes keyword description)
            catKeywords in
  let hasNegativeKeyword :=
    existsb (fun keyword => Js.includes keyword title || Js.includes keyword description)
            negativeKeywords in
  hasPositiveKeyword && negb hasNegativeKeyword && truthy (urlToImage article).

Definition news_content (now : Z) (keyword : string) (article : NewsArticle)
    : DiscoveredContent :=
  {| id := "news_" +:+ hashString (article_url article);
     title := article_title article;
     description := article_description article;
     imageUrl := urlToImage article;
     videoUrl := None;
     sourceUrl := article_url article;
     source := news;
     sourceName := source_name article;
     author := None;
     score := None;
     engagementCount := None;
     createdAt := publishedAt article;
     tags := ["news"%string; keyword];
     contentType := link;
     quality := calculateNewsQuality now article |}.

(** The answer of the news API to one query: [response.ok] and what
    [(await response.json()).articles] is, when the body parses. *)
Record NewsResponse : Type := {
  ok : bool;
  articles : Outcome (option (list NewsArticle))
}.

Definition newsKeywords : list string :=
  ["cat"; "cats"; "kitten"; "feline"; "pet"]%string.

Section News.
(** [fetch] of the query for a keyword with a page size; it may throw. *)
Variable newsapi : string -> Z -> Outcome NewsResponse.

Fixpoint news_loop (now limit : Z) (keywords : list string)
    (discovered : list DiscoveredContent) : Outcome (list DiscoveredContent) :=
  match keywords with
  | [] => Ok discovered
  | keyword :: rest =>
      bind (newsapi keyword (ceil_div limit 2)) (fun response =>
        if negb (ok response) then news_loop now limit rest discovered
        else
          bind (articles response) (fun data =>
            let articles := default [] data in
            news_loop now limit rest
              (discovered ++
               map (news_content now keyword)
                   (List.filter isRelevantNewsArticle articles))))
  end.

Definition discoverFromNews (now limit : Z) : list DiscoveredContent :=
  try_catch
    (bind (news_loop now limit (firstn 2 newsKeywords) [])
          (fun discovered => Ok (Js.slice0 limit discovered)))
    (fun _ => []).
End News.

(** *** Aggregation *)

(** The three source methods, as [discoverContent] sees them: each is
    called with a limit and its promise settles. *)
Record Sources : Type := {
  fromReddit : Z -> Js.Settled (list DiscoveredContent);
  fromTwitter : Z -> Js.Settled (list DiscoveredContent);
  fromNews : Z -> Js.Settled (list DiscoveredContent)
}.

(** The sources of the service itself: they catch their own errors, so
    their promises are fulfilled. *)
Definition service_sources (now : Z)
    (getCachedRedditData : string -> option (list RedditPost))
    (fetchRedditSubreddit : string -> Z -> option (list RedditPost))
    (newsapi : string -> Z -> Outcome NewsResponse) : Sources :=
  {| fromReddit := fun limit =>
       Js.Fulfilled (discoverFromReddit getCachedRedditData fetchRedditSubreddit now limit);
     fromTwitter := fun limit => Js.Fulfilled (discoverFromTwitter limit);
     fromNews := fun limit => Js.Fulfilled (discoverFromNews newsapi now limit) |}.

(** The names [discoverContent] accepts in its [sources] argument. *)
Inductive Requested : Type := ask_reddit | ask_twitter | ask_news.

Definition Requested_eqb (a b : Requested) : bool :=
  match a, b with
  | ask_reddit, ask_reddit | ask_twitter, ask_twitter | ask_news, ask_news => true
  | _, _ => false
  end.

Definition includes (s : Requested) (sources : list Requested) : bool :=
  existsb (Requested_eqb s) sources.

(** The method behind a name. *)
Definition method (k : Requested) (S : Sources)
    : Z -> Js.Settled (list DiscoveredContent) :=
  match k with
  | ask_reddit => fromReddit S
  | ask_twitter => fromTwitter S
  | ask_news => fromNews S
  end.

(** The key of the sort in [discoverContent]:
    [quality * 0.7 + (Date.now() - createdAt) / (24 * 60 * 60 * 1000) * 0.3].
    The clock is read once for the whole sort; the difference of two keys
    does not depend on it. *)
Definition sort_score (now : Z) (a : DiscoveredContent) : Q :=
  quality a * (7 # 10) +
  inject_Z (now - createdAt a) / inject_Z (24 * 60 * 60 * 1000) * (3 # 10).

Definition compareFn (now : Z) (a b : DiscoveredContent) : Q :=
  sort_score now b - sort_score now a.

(** The values of the fulfilled promises, in order. *)
Definition fulfilled_values {A : Type} (results : list (Js.Settled (list A))) : list A :=
  flat_map (fun result => match result with
                          | Js.Fulfilled value => value
                          | Js.Rejected _ => []
                          end) results.

Definition promises (S : Sources) (maxItems : Z) (sources : list Requested)
    : list (Js.Settled (list DiscoveredContent)) :=
  let limit := ceil_div maxItems (Z.of_nat (length sources)) in
  (if includes ask_reddit sources then [fromReddit S limit] else []) ++
  (if includes ask_twitter sources then [fromTwitter S limit] else []) ++
  (if includes ask_news sources then [fromNews S limit] else []).

(** [discoverContent].  [Promise.allSettled] does not reject and nothing
    else in the [try] block throws, so the [catch] block is not entered. *)
Definition discoverContent (S : Sources) (now : Z) (maxItems : Z)
    (sources : list Requested) : list DiscoveredContent :=
  let results := promises S maxItems sources in
  let allContent := fulfilled_values results in
  (* Sort by quality and recency *)
  Js.slice0 maxItems (Js.sort (compareFn now) allContent).

(** *** Filtering and trends *)

(** [filterContent]; an argument left out takes its default value. *)
Definition filterContent (now : Z) (content : list DiscoveredContent)
    (minQuality : option Q) (maxAge : option Z) : list DiscoveredContent :=
  let minQuality := default (3 # 10) minQuality in
  let maxAge := default (7 * 24 * 60 * 60 * 1000)%Z maxAge in
  List.filter
    (fun item =>
       (* Quality filter *)
       if Qlt_bool (quality item) minQuality then false
       (* Age filter *)
       else if (maxAge <? now - createdAt item)%Z then false
       (* Content type filter (prefer images and videos) *)
       else if match contentType item with text => true | _ => false end
               && negb (truthy (imageUrl item)) then false
       else true)
    content.

Inductive Timeframe : Type := last_hour | last_6_hours | last_24_hours.

Definition hoursBack (timeframe : Timeframe) : Z :=
  match timeframe with
  | last_hour => 1
  | last_6_hours => 6
  | last_24_hours => 24
  end.

(** [(a.score || 0) + (a.engagementCount || 0) * 2] *)
Definition trend_score (a : DiscoveredContent) : Z :=
  (default 0 (score a) + default 0 (engagementCount a) * 2)%Z.

(** [getTrendingContent]: the promise of the source is awaited, so its
    rejection is thrown on. *)
Definition getTrendingContent (S : Sources) (now : Z) (source : Requested)
    (timeframe : option Timeframe) (limit : option Z)
    : Outcome (list DiscoveredContent) :=
  let timeframe := default last_24_hours timeframe in
  let limit := default 10%Z limit in
  let cutoffTime := (now - hoursBack timeframe * 60 * 60 * 1000)%Z in
  match method source S (limit * 2)%Z with
  | Js.Rejected reason => Throw reason
  | Js.Fulfilled content =>
      Ok (Js.slice0 limit
            (Js.sort (fun a b => inject_Z (trend_score b - trend_score a))
               (List.filter (fun item => (cutoffTime <=? createdAt item)%Z) content)))
  end.

(** The test of [filterContent], as a proposition. *)
Definition passes (now : Z) (minQuality : Q) (maxAge : Z) (item : DiscoveredContent)
    : Prop :=
  minQuality <= quality item /\
  (now - createdAt item <= maxAge)%Z /\
  (contentType item = text -> truthy (imageUrl item) = true).

(** [a] may stand before [b] in the order of [getTrendingContent]. *)
Definition trend_before (a b : DiscoveredContent) : Prop :=
  (trend_score b <= trend_score a)%Z.

(** The query of the news source for a keyword throws: the fetch itself, or
    the parsing of an answer that is [ok]. *)
Definition query_fails (api : string -> Z -> Outcome NewsResponse) (limit : Z)
    (keyword : string) : Prop :=
  (exists e, api keyword (ceil_div limit 2) = Throw e) \/
  (exists resp e, api keyword (ceil_div limit 2) = Ok resp /\
                  ok resp = true /\ articles resp = Throw e).

(** *** The ranking of the specification *)

(** The composite key as the specification words it:
    [0.7 * qualityScore + 0.3 * recencyFactor] with
    [recencyFactor = 1 - min(ageDays, 1)]. *)
Definition ageDays (now : Z) (a : DiscoveredContent) : Q :=
  inject_Z (now - createdAt a) / inject_Z (24 * 60 * 60 * 1000).

Definition declared_rank (now : Z) (a : DiscoveredContent) : Q :=
  (7 # 10) * quality a + (3 # 10) * (1 - Qmin (ageDays now a) 1).

(** [a] may stand before [b] in the order of the sort. *)
Definition ranked_before (now : Z) (a b : DiscoveredContent) : Prop :=
  sort_score now b <= sort_score now a.

(** What one source contributes, and the items of the requested sources
    other than [k], in the order of their promises. *)
Definition items_of (S : Sources) (limit : Z) (k : Requested)
    : list DiscoveredContent :=
  match method k S limit with
  | Js.Fulfilled value => value
  | Js.Rejected _ => []
  end.

Definition union_of_others (k : Requested) (S : Sources) (maxItems : Z)
    (sources : list Requested) : list DiscoveredContent :=
  flat_map (items_of S (ceil_div maxItems (Z.of_nat (length sources))))
    (List.filter (fun k' => includes k' sources && negb (Requested_eqb k' k))
                 [ask_reddit; ask_twitter; ask_news]).

(** Two items have the same natural key: the same source and id, or the
    same URL. *)
Definition same_natural_key (a b : DiscoveredContent) : bool :=
  (Source_eqb (source a) (source b) && String.eqb (id a) (id b)) ||
  String.eqb (sourceUrl a) (sourceUrl b).

End Discovery.

(** ** Discovery with calls that may stay unanswered *)

(** The definitions of [Discovery] take every awaited call as answered.
    The service sets no time limit on a call, so an [await] returns when
    the awaited promise is settled, however late, and not at all when it
    never is.  This module gives the methods that await, over calls that
    may stay without an answer. *)
Module Awaited.
Import Discovery.

(** A promise under [await]: it is settled with a value, or never. *)
Inductive Promise (A : Type) : Type :=
| Settles (value : A)
| Never.
Arguments Settles {A} value.
Arguments Never {A}.

(** [const a = await p; k a] *)
Definition await {A B : Type} (p : Promise A) (k : A -> Promise B) : Promise B :=
  match p with
  | Settles a => k a
  | Never => Never
  end.

(** The calls the sources make: the two of [CacheService] and
    [fetchRedditSubreddit], which catch their errors, and the [fetch] of the
    news API for a keyword and a page size, which may throw. *)
Record Calls : Type := {
  getCachedRedditData : string -> Promise (option (list RedditPost));
  cacheRedditData : string -> list RedditPost -> Promise bool;
  fetchRedditSubreddit : string -> Z -> Promise (option (list RedditPost));
  newsapi : string -> Z -> Promise (Outcome NewsResponse)
}.

Section Service.
Variable c : Calls.

Fixpoint reddit_loop (now limit : Z) (subs : list string)
    (discovered : list DiscoveredContent) : Promise (list DiscoveredContent) :=
  match subs with
  | [] => Settles discovered
  | sub :: rest =>
      (* Check cache first *)
      await (getCachedRedditData c sub) (fun cached =>
        match cached with
        | Some posts =>
            reddit_loop now limit rest (discovered ++ parseRedditContent now posts sub)
        | None =>
            (* Fetch new content *)
            await (fetchRedditSubreddit c sub
                     (ceil_div limit (Z.of_nat (length subreddits))))
              (fun redditData =>
                 match redditData with
                 | Some posts =>
                     await (cacheRedditData c sub posts) (fun _ =>
                       reddit_loop now limit rest
                         (discovered ++ parseRedditContent now posts sub))
                 | None => reddit_loop now limit rest discovered
                 end)
        end)
  end.

Definition discoverFromReddit (now limit : Z) : Promise (list DiscoveredContent) :=
  await (reddit_loop now limit subreddits []) (fun discovered =>
    Settles (Js.slice0 limit discovered)).

Definition discoverFromTwitter (limit : Z) : Promise (list DiscoveredContent) :=
  Settles [].

(** The loop of [discoverFromNews]: it ends with the items, or with what
    was thrown inside the [try] block. *)
Fixpoint news_loop (now limit : Z) (keywords : list string)
    (discovered : list DiscoveredContent)
    : Promise (Outcome (list DiscoveredContent)) :=
  match keywords with
  | [] => Settles (Ok discovered)
  | keyword :: rest =>
      await (newsapi c keyword (ceil_div limit 2)) (fun answer =>
        match answer with
        | Throw e => Settles (Throw e)
        | Ok response =>
            if negb (ok response) then news_loop now limit rest discovered
            else
              match articles response with
              | Throw e => Settles (Throw e)
              | Ok data =>
                  let articles := default [] data in
                  news_loop now limit rest
                    (discovered ++
                     map (news_content now keyword)
                         (List.filter isRelevantNewsArticle articles))
              end
        end)
  end.

Definition discoverFromNews (now limit : Z) : Promise (list DiscoveredContent) :=
  await (news_loop now limit (firstn 2 newsKeywords) []) (fun outcome =>
    Settles
      (try_catch
         (bind outcome (fun discovered => Ok (Js.slice0 limit discovered)))
         (fun _ => []))).

(** [Promise.allSettled(promises)] is settled once every promise is.  The
    promises of the three methods are never rejected. *)
Fixpoint allSettled {A : Type} (promises : list (Promise A))
    : Promise (list (Js.Settled A)) :=
  match promises with
  | [] => Settles []
  | p :: rest =>
      await p (fun value =>
        await (allSettled rest) (fun results =>
          Settles (Js.Fulfilled value :: results)))
  end.

Definition promises (now maxItems : Z) (sources : list Requested)
    : list (Promise (list DiscoveredContent)) :=
  let limit := ceil_div maxItems (Z.of_nat (length sources)) in
  (if includes ask_reddit sources then [discoverFromReddit now limit] else []) ++
  (if includes ask_twitter sources then [discoverFromTwitter limit] else []) ++
  (if includes ask_news sources then [discoverFromNews now limit] else []).

(** [discoverContent]: the three methods are started, and their promises
    awaited together. *)
Definition discoverContent (now maxItems : Z) (sources : list Requested)
    : Promise (list DiscoveredContent) :=
  await (allSettled (promises now maxItems sources)) (fun results =>
    let allContent := fulfilled_values results in
    (* Sort by quality and recency *)
    Settles (Js.slice0 maxItems (Js.sort (compareFn now) allContent))).

End Service.

(** Calls that are all answered. *)
Definition answering (cache : string -> option (list RedditPost))
    (api : string -> Z -> option (list RedditPost))
    (news : string -> Z -> Outcome NewsResponse) : Calls :=
  {| getCachedRedditData := fun sub => Settles (cache sub);
     cacheRedditData := fun _ _ => Settles true;
     fetchRedditSubreddit := fun sub limit => Settles (api sub limit);
     newsapi := fun keyword pageSize => Settles (news keyword pageSize) |}.

(** The source [k] fails at every call it makes.  For the news: every
    query throws.  For Reddit: the cache holds nothing and every fetch of a
    subreddit fails, which [fetchRedditSubreddit] reports as [null].  The
    Twitter source makes no call. *)
Definition always_fails (k : Requested)
    (cache : string -> option (list RedditPost))
    (api : string -> Z -> option (list RedditPost))
    (news : string -> Z -> Outcome NewsResponse) : Prop :=
  match k with
  | ask_reddit => (forall sub, cache sub = None) /\ (forall sub limit, api sub limit = None)
  | ask_twitter => False
  | ask_news => forall keyword pageSize, exists e, news keyword pageSize = Throw e
  end.

End Awaited.

(** ** The other methods of the rate limit service *)

Module RateLimitMethods.

(** *** Headers *)

(** A [Headers] object: names are matched without regard to case, so the
    map is keyed by lower-case names; a name holds one combined value.
    ([Set-Cookie], which is kept as separate entries, is outside the
    model.) *)
Definition headers_get (name : string) (h : gmap string string) : option string :=
  h !! Js.toLowerCase name.

Definition headers_set (name value : string) (h : gmap string string)
    : gmap string string :=
  <[Js.toLowerCase name := value]> h.

Definition headers_append (name value : string) (h : gmap string string)
    : gmap string string :=
  match h !! Js.toLowerCase name with
  | Some old => <[Js.toLowerCase name := old +:+ ", " +:+ value]> h
  | None => <[Js.toLowerCase name := value]> h
  end.

(** *** The client address *)

Definition clientIPHeaders : list string :=
  ["CF-Connecting-IP"; "X-Forwarded-For"; "X-Real-IP"; "X-Client-IP"]%string.

Fixpoint firstClientIP (headers : list string) (h : gmap string string) : string :=
  match headers with
  | [] => "unknown"
  | header :: rest =>
      match headers_get header h with
      | Some ip =>
          if String.eqb ip "" then firstClientIP rest h
          else
            (* Handle comma-separated IPs *)
            Js.trim (Js.before_comma ip)
      | None => firstClientIP rest h
      end
  end.

(** [getClientIP], on the headers of the request. *)
Definition getClientIP (h : gmap string string) : string :=
  firstClientIP clientIPHeaders h.

(** *** The keyed checks *)

Definition config (maxRequests windowMs : Z) : RateLimitService.RateLimitConfig :=
  {| RateLimitService.maxRequests := maxRequests;
     RateLimitService.windowMs := windowMs |}.

Section Methods.

Context {W : Type}.
Variable RATE_LIMITER :
  string -> RateLimiter.Request -> W -> Outcome RateLimiter.Response * W.

(** The first sixteen hexadecimal digits of the SHA-256 digest of a string,
    which [hashString] of the service computes with [crypto.subtle]. *)
Variable hashString : string -> string.

(** Each method takes the limit and the window length as optional
    arguments with default values. *)
Definition checkIPRateLimit (now : Z) (headers : gmap string string)
    (maxRequests windowMs : option Z) (w : W) : RateLimiter.Json * W :=
  let ip := getClientIP headers in
  RateLimitService.checkRateLimit RATE_LIMITER now ("ip:" +:+ ip)
    (config (default 100 maxRequests) (default 60000 windowMs)) w.

Definition checkAPIKeyRateLimit (now : Z) (apiKey : string)
    (maxRequests windowMs : option Z) (w : W) : RateLimiter.Json * W :=
  let keyHash := hashString apiKey in
  RateLimitService.checkRateLimit RATE_LIMITER now ("api:" +:+ keyHash)
    (config (default 1000 maxRequests) (default 3600000 windowMs)) w.

Definition checkUserRateLimit (now : Z) (userId : string)
    (maxRequests windowMs : option Z) (w : W) : RateLimiter.Json * W :=
  RateLimitService.checkRateLimit RATE_LIMITER now ("user:" +:+ userId)
    (config (default 50 maxRequests) (default 300000 windowMs)) w.

Definition checkAIProviderRateLimit (now : Z) (provider model : string)
    (maxRequests windowMs : option Z) (w : W) : RateLimiter.Json * W :=
  RateLimitService.checkRateLimit RATE_LIMITER now
    ("ai:" +:+ provider +:+ ":" +:+ model)
    (config (default 60 maxRequests) (default 60000 windowMs)) w.

Definition checkFacebookRateLimit (now : Z) (endpoint : string)
    (maxRequests windowMs : option Z) (w : W) : RateLimiter.Json * W :=
  RateLimitService.checkRateLimit RATE_LIMITER now ("facebook:" +:+ endpoint)
    (config (default 200 maxRequests) (default 3600000 windowMs)) w.

Definition checkContentGenerationRateLimit (now : Z) (type : string)
    (maxRequests windowMs : option Z) (w : W) : RateLimiter.Json * W :=
  RateLimitService.checkRateLimit RATE_LIMITER now ("generation:" +:+ type)
    (config (default 10 maxRequests) (default 3600000 windowMs)) w.

(** The request of [resetRateLimit].  Its JSON body holds the key alone;
    the two numbers of the record are not read by [handleReset]. *)
Definition reset_request (key : string) : RateLimiter.Request :=
  {| RateLimiter.pathname := "/reset";
     RateLimiter.body :=
       {| RateLimiter.key := key;
          RateLimiter.maxRequests := 0;
          RateLimiter.windowMs := 0 |} |}.

(** [result.success] of the JSON of the response: [undefined] is [None]. *)
Definition success_of (j : RateLimiter.Json) : option bool :=
  match j with
  | RateLimiter.JSuccess b => Some b
  | RateLimiter.JResult _ => None
  end.

Definition resetRateLimit (key : string) (w : W) : option bool * W :=
  let '(response, w) := RATE_LIMITER "global" (reset_request key) w in
  (try_catch
     (bind response (fun r => bind (RateLimiter.json r) (fun result =>
        Ok (success_of result))))
     (fun _ => Some false),
   w).

End Methods.

(** The prefixes of the keys of the six methods. *)
Definition key_prefixes : list string :=
  ["ip:"; "api:"; "user:"; "ai:"; "facebook:"; "generation:"]%string.

(** *** Responses *)

(** The body of a response: the JSON text of the error object (a
    [retryAfter] that is [undefined] is left out of it), a text, or the
    body handed on from another response. *)
Inductive Content : Type :=
| RateLimitExceeded (retryAfter : option Z) (resetTime : Z)
| Text (s : string)
| Stream (body : string).

Record HttpResponse : Type := {
  http_status : Z;
  statusText : string;
  http_headers : gmap string string;
  content : Content
}.

(** [result.retryAfter || 60] *)
Definition retryAfter_or_60 (result : RateLimiter.RateLimitResult) : Z :=
  match RateLimiter.retryAfter result with
  | Some n => if n =? 0 then 60 else n
  | None => 60
  end.

(** [createRateLimitResponse].  A response built from a text gets a
    [Content-Type] of its own when the headers give none. *)
Definition createRateLimitResponse (result : RateLimiter.RateLimitResult)
    (originalResponse : option HttpResponse) : HttpResponse :=
  let headers := match originalResponse with
                 | Some r => http_headers r
                 | None => ∅
                 end in
  let headers :=
    headers_set "X-RateLimit-Limit" (Js.toString (RateLimiter.remaining result)) headers in
  let headers :=
    headers_set "X-RateLimit-Remaining" (Js.toString (RateLimiter.remaining result)) headers in
  let headers :=
    headers_set "X-RateLimit-Reset" (Js.toString (RateLimiter.result_resetTime result))
      headers in
  if negb (RateLimiter.allowed result) then
    let headers :=
      headers_set "Retry-After" (Js.toString (retryAfter_or_60 result)) headers in
    {| http_status := 429;
       statusText := "";
       http_headers := headers_append "Content-Type" "application/json" headers;
       content := RateLimitExceeded (RateLimiter.retryAfter result)
                    (RateLimiter.result_resetTime result) |}
  else
    match originalResponse with
    | Some r =>
        {| http_status := http_status r;
           statusText := statusText r;
           http_headers := headers;
           content := content r |}
    | None =>
        {| http_status := 200;
           statusText := "";
           http_headers :=
             match headers_get "Content-Type" headers with
             | Some _ => headers
             | None => headers_set "Content-Type" "text/plain;charset=UTF-8" headers
             end;
           content := Text "OK" |}
    end.

(** A header that is absent or empty. *)
Definition no_value (name : string) (h : gmap string string) : Prop :=
  headers_get name h = None \/ headers_get name h = Some ""%string.

End RateLimitMethods.

(** ** Concrete data for the examples *)

Module Scenarios.

(** 2025-01-02T12:00:00Z, in milliseconds. *)
Definition noon : Z := 1735819200000.

(** *** Scheduling *)

Definition cat_video : Database.ContentRecord :=
  {| Database.content_id_of := "c1"; Database.type := Database.video;
     Database.source := None; Database.source_url := None;
     Database.prompt := None; Database.generated_content_url := None;
     Database.caption := None; Database.hashtags := None;
     Database.content_status := Database.content_approved;
     Database.ai_provider := None; Database.generation_metadata := None;
     Database.content_created_at := "2025-01-01T00:00:00.000Z";
     Database.content_updated_at := "2025-01-01T00:00:00.000Z";
     Database.scheduled_at := None; Database.posted_at := None |}.

Definition db0 : Database.DB :=
  {| Database.content := [cat_video]; Database.scheduling_queue := [];
     Database.sqlite_sequence := 0; Database.foreign_keys := true |}.

Definition morning : string := "2025-01-02T08:00:00.000Z".
Definition morning_timestamp : string := "2025-01-02 08:00:00".
Definition afternoon : string := "2025-01-02T14:00:00.000Z".
Definition evening : string := "2025-01-02T20:00:00.000Z".

(** *** Discovery *)

Definition rescue : Discovery.NewsArticle :=
  {| Discovery.article_title := "Cat rescued from tree by firefighters";
     Discovery.article_description := Some "A kitten was brought down safely."%string;
     Discovery.article_url := "https://news.example.com/cat-rescued";
     Discovery.urlToImage := Some "https://news.example.com/cat.png"%string;
     Discovery.publishedAt := noon - 3600000;
     Discovery.source_id := None;
     Discovery.source_name := "BBC News";
     Discovery.article_content := None |}.

(** A news API that answers every query with the same article. *)
Definition same_article_api (keyword : string) (pageSize : Z)
    : Outcome Discovery.NewsResponse :=
  Ok {| Discovery.ok := true; Discovery.articles := Ok (Some [rescue]) |}.

(** A Reddit without cache entries and without answers. *)
Definition no_cache (sub : string) : option (list Discovery.RedditPost) :=
  None.

Definition no_reddit (sub : string) (limit : Z) : option (list Discovery.RedditPost) :=
  None.

(** A post that was voted down. *)
Definition downvoted : Discovery.RedditPost :=
  {| Discovery.post_id := "abc"; Discovery.post_title := "My cat";
     Discovery.selftext := None; Discovery.url := "https://www.reddit.com/r/cats/abc";
     Discovery.thumbnail := None; Discovery.preview := [];
     Discovery.post_author := "someone"; Discovery.post_score := -1000;
     Discovery.num_comments := 0; Discovery.created_utc := 1735700000;
     Discovery.subreddit := "cats"; Discovery.permalink := "/r/cats/abc";
     Discovery.is_video := false; Discovery.over_18 := false |}.

Definition unvoted : Discovery.RedditPost :=
  {| Discovery.post_id := "abd"; Discovery.post_title := "My other cat";
     Discovery.selftext := None; Discovery.url := "https://www.reddit.com/r/cats/abd";
     Discovery.thumbnail := None; Discovery.preview := [];
     Discovery.post_author := "someone"; Discovery.post_score := 0;
     Discovery.num_comments := 0; Discovery.created_utc := 1735819200;
     Discovery.subreddit := "cats"; Discovery.permalink := "/r/cats/abd";
     Discovery.is_video := false; Discovery.over_18 := false |}.

Definition item (name : string) (created : Z) (q : Q) : Discovery.DiscoveredContent :=
  {| Discovery.id := name; Discovery.title := name; Discovery.description := None;
     Discovery.imageUrl := None; Discovery.videoUrl := None;
     Discovery.sourceUrl := "https://www.reddit.com/r/cats/" +:+ name;
     Discovery.source := Discovery.reddit; Discovery.sourceName := "cats";
     Discovery.author := None; Discovery.score := None;
     Discovery.engagementCount := None; Discovery.createdAt := created;
     Discovery.tags := []; Discovery.contentType := Discovery.image;
     Discovery.quality := q |}.

(** Two items of the same quality, twelve hours apart. *)
Definition newer : Discovery.DiscoveredContent := item "newer" noon (1 # 2).
Definition older : Discovery.DiscoveredContent :=
  item "older" (noon - 12 * 3600000) (1 # 2).

Definition photo : Discovery.DiscoveredContent := item "photo" noon (9 # 10).
Definition story : Discovery.DiscoveredContent := item "story" noon (8 # 10).

(** Sources whose promises settle the same way for every limit. *)
Definition fixed_sources (r t n : Js.Settled (list Discovery.DiscoveredContent))
    : Discovery.Sources :=
  {| Discovery.fromReddit := fun _ => r;
     Discovery.fromTwitter := fun _ => t;
     Discovery.fromNews := fun _ => n |}.

Definition twitter_down : Discovery.Sources :=
  fixed_sources (Js.Fulfilled [photo]) (Js.Rejected "timeout") (Js.Fulfilled [story]).

(** A post that [parseRedditContent] keeps. *)
Definition tabby : Discovery.RedditPost :=
  {| Discovery.post_id := "tab"; Discovery.post_title := "Tabby in the sun";
     Discovery.selftext := None; Discovery.url := "https://i.redd.it/tabby.jpg";
     Discovery.thumbnail := None; Discovery.preview := [];
     Discovery.post_author := "someone"; Discovery.post_score := 500;
     Discovery.num_comments := 20; Discovery.created_utc := 1735815600;
     Discovery.subreddit := "cats"; Discovery.permalink := "/r/cats/tab";
     Discovery.is_video := false; Discovery.over_18 := false |}.

(** A cache that holds the post for [cats] and nothing else. *)
Definition cats_cached (sub : string) : option (list Discovery.RedditPost) :=
  if String.eqb sub "cats" then Some [tabby] else None.

(** A Reddit that answers the fetch of [cats] alone, with two posts. *)
Definition reddit_cats_only (sub : string) (limit : Z)
    : option (list Discovery.RedditPost) :=
  if String.eqb sub "cats" then Some [tabby; tabby] else None.

(** A news API whose every query fails. *)
Definition news_down (keyword : string) (pageSize : Z)
    : Outcome Discovery.NewsResponse :=
  Throw "TypeError: fetch failed".

(** The calls of a service whose cache holds the post and whose news API
    never answers. *)
Definition news_silent : Awaited.Calls :=
  {| Awaited.getCachedRedditData := fun sub => Awaited.Settles (cats_cached sub);
     Awaited.cacheRedditData := fun _ _ => Awaited.Settles true;
     Awaited.fetchRedditSubreddit := fun _ _ => Awaited.Settles None;
     Awaited.newsapi := fun _ _ => Awaited.Never |}.

(** *** Requests *)

(** The headers of a request that came through a proxy. *)
Definition proxied : gmap string string :=
  {[ "x-forwarded-for"%string := "203.0.113.7, 10.0.0.1"%string ]}.

(** Two articles whose addresses differ in two letters. *)
Definition article_at (u : string) : Discovery.NewsArticle :=
  {| Discovery.article_title := "Cats";
     Discovery.article_description := None;
     Discovery.article_url := u;
     Discovery.urlToImage := Some "https://news.example.com/cat.png"%string;
     Discovery.publishedAt := noon;
     Discovery.source_id := None;
     Discovery.source_name := "Example";
     Discovery.article_content := None |}.

(** The database after the video has been scheduled once. *)
Definition db1 : Database.DB :=
  snd (Database.scheduleContent morning morning morning_timestamp "c1" afternoon db0).

End Scenarios.

(** * Properties *)

(** ** The rate limiter *)

Section RateLimiterFacts.
Import RateLimiter.

(** A check loads the window, resets it when it has expired, admits the
    request when the count is below the limit, and writes the window back:
    always to memory, to storage only for an admitted request. *)
Lemma checkRateLimit_unfold now k m w s :
  let c1 := expire now w (load now k w s) in
  let c2 := admit_one m c1 in
  checkRateLimit now k m w s =
    ({| allowed := count c1 <? m;
        remaining := Z.max 0 (m - count c2);
        result_resetTime := resetTime c2;
        retryAfter := if count c1 <? m then None
                      else Some (ceil_div (resetTime c2 - now) 1000) |},
     {| requests := <[k := c2]> (requests s);
        storage := if count c1 <? m then <[k := c2]> (storage s) else storage s |}).
Proof.
  destruct s as [req sto].
  unfold checkRateLimit, load, stored_window, expire, admit_one, set_request, storage_put.
  cbn [requests storage].
  destruct (req !! k) as [c|] eqn:Hreq; [|destruct (sto !! k) as [c|] eqn:Hsto];
    cbn [default id count resetTime];
    match goal with |- context [now >=? ?r] => destruct (now >=? r) eqn:Hexp end;
    cbn [count resetTime requests storage];
    match goal with |- context [?a <? m] => destruct (a <? m) eqn:Hm end;
    cbn [count resetTime requests storage];
    rewrite ?insert_insert_eq; try done.
  by rewrite insert_id.
Qed.

Lemma admit_one_bounded m c : 0 <= m -> count c <= m -> count (admit_one m c) <= m.
Proof.
  intros Hm Hc. unfold admit_one.
  destruct (count c <? m) eqn:E; cbn [count]; lia.
Qed.

Lemma expire_bounded now w m c : 0 <= m -> count c <= m -> count (expire now w c) <= m.
Proof.
  intros Hm Hc. unfold expire. destruct (now >=? resetTime c); cbn [count]; lia.
Qed.

Lemma load_bounded now k w m s :
  0 <= m -> count_bounded k m s -> count (load now k w s) <= m.
Proof.
  intros Hm [Hreq Hsto]. unfold load, stored_window.
  destruct (requests s !! k) as [c|] eqn:E; cbn [default id]; [by apply Hreq|].
  destruct (storage s !! k) as [c|] eqn:E'; cbn [default id count]; [by apply Hsto|lia].
Qed.

Create HintDb limiter.
#[local] Hint Resolve admit_one_bounded expire_bounded load_bounded : limiter.

Lemma step_count_bounded k m s o :
  0 <= m -> uses_limit k m o -> count_bounded k m s -> count_bounded k m (step s o).
Proof.
  intros Hm Ho Hs. destruct o as [now k' m' w|k'|]; cbn [step uses_limit] in *.
  - rewrite checkRateLimit_unfold. cbn [snd].
    destruct (decide (k' = k)) as [->|Hne].
    + rewrite (Ho eq_refl).
      assert (Hc : count (admit_one m (expire now w (load now k w s))) <= m)
        by auto with limiter.
      split; cbn [requests storage]; intros c.
      * rewrite lookup_insert_eq. by intros [= <-].
      * destruct (_ <? m); [rewrite lookup_insert_eq; by intros [= <-]|apply Hs].
    + destruct Hs as [Hreq Hsto].
      split; cbn [requests storage]; intros c.
      * rewrite lookup_insert_ne by done. apply Hreq.
      * destruct (_ <? m'); [rewrite lookup_insert_ne by done|]; apply Hsto.
  - destruct Hs as [Hreq Hsto].
    split; cbn [reset requests storage]; intros c Hc;
      apply lookup_delete_Some in Hc as [_ Hc]; auto.
  - destruct Hs as [Hreq Hsto]. split; cbn [new requests storage]; [|done].
    intros c. by rewrite lookup_empty.
Qed.

Lemma run_count_bounded k m ops : forall s,
  0 <= m -> Forall (uses_limit k m) ops -> count_bounded k m s ->
  count_bounded k m (run ops s).
Proof.
  induction ops as [|o ops IH]; intros s Hm Hops Hs; [done|].
  inversion Hops; subst. cbn [run fold_left].
  apply IH; auto using step_count_bounded.
Qed.

Lemma new_count_bounded k m : count_bounded k m (new ∅).
Proof. split; intros c; cbn [new requests storage]; by rewrite lookup_empty. Qed.

#[local] Hint Resolve new_count_bounded : limiter.

(** C1, as amended.  Take a key [k] whose checks all ask for the same limit
    [m >= 0], and any history of the object since its creation: checks of
    any keys at any times, resets and restarts.  The count held for [k], in
    memory and in storage, is never above [m]; and a check of [k], with
    whatever limit, that is refused leaves in memory the count it found, or
    [0] when the window had expired, and leaves the storage as it was. *)
Theorem count_never_exceeds_limit (k : string) (m : Z) (ops : list Op) :
  0 <= m ->
  Forall (uses_limit k m) ops ->
  let s := run ops (new ∅) in
  count_bounded k m s /\
  (forall now m' w,
     let before := load now k w s in
     let '(r, s') := checkRateLimit now k m' w s in
     allowed r = false ->
     requests s' !! k =
       Some {| count := if now >=? resetTime before then 0 else count before;
               resetTime := if now >=? resetTime before then now + w
                            else resetTime before |} /\
     storage s' = storage s).
Proof.
  intros Hm Hops s. split.
  - apply run_count_bounded; auto with limiter.
  - intros now m' w before. rewrite checkRateLimit_unfold.
    cbn [allowed requests storage]. fold before. intros Hno. rewrite Hno.
    split; [|done].
    rewrite lookup_insert_eq. unfold admit_one. rewrite Hno.
    unfold expire. by destruct (now >=? resetTime before), before.
Qed.

(** C1: the theorem at two checks of one address within a minute. *)
Lemma count_never_exceeds_limit_witness :
  0 <= 1 /\
  Forall (uses_limit "ip:1.2.3.4" 1)
         [OpCheck 0 "ip:1.2.3.4" 1 60000; OpCheck 5 "ip:1.2.3.4" 1 60000] /\
  let s := run [OpCheck 0 "ip:1.2.3.4" 1 60000; OpCheck 5 "ip:1.2.3.4" 1 60000]
               (new ∅) in
  count_bounded "ip:1.2.3.4" 1 s /\
  (forall now m' w,
     let before := load now "ip:1.2.3.4" w s in
     let '(r, s') := checkRateLimit now "ip:1.2.3.4" m' w s in
     allowed r = false ->
     requests s' !! "ip:1.2.3.4"%string =
       Some {| count := if now >=? resetTime before then 0 else count before;
               resetTime := if now >=? resetTime before then now + w
                            else resetTime before |} /\
     storage s' = storage s).
Proof.
  assert (H0 : 0 <= 1) by lia.
  assert (H1 : Forall (uses_limit "ip:1.2.3.4" 1)
                 [OpCheck 0 "ip:1.2.3.4" 1 60000; OpCheck 5 "ip:1.2.3.4" 1 60000])
    by (repeat constructor).
  split; [exact H0|]. split; [exact H1|].
  exact (count_never_exceeds_limit "ip:1.2.3.4" 1 _ H0 H1).
Defined.

(** C1, as stated, fails for a negative limit: the first check of a key
    with [maxRequests = -1] is refused and leaves the count [0], which is
    above the limit. *)
Lemma count_exceeds_negative_limit :
  let s := run [OpCheck 0 "k" (-1) 1000] (new ∅) in
  Forall (uses_limit "k" (-1)) [OpCheck 0 "k" (-1) 1000] /\
  requests s !! "k"%string = Some {| count := 0; resetTime := 1000 |} /\
  ~ count_bounded "k" (-1) s.
Proof.
  split; [repeat constructor|].
  assert (H : requests (run [OpCheck 0 "k" (-1) 1000] (new ∅)) !! "k"%string
              = Some {| count := 0; resetTime := 1000 |}) by (vm_compute; reflexivity).
  split; [exact H|]. intros [Hreq _]. specialize (Hreq _ H). cbn in Hreq. lia.
Qed.

(** The limit belongs to the call, not to the key: after two requests
    admitted under the limit [2], a check with the limit [1] is refused
    while the count stands at [2]. *)
Example count_under_a_lowered_limit :
  let s := run [OpCheck 0 "k" 2 1000; OpCheck 1 "k" 2 1000] (new ∅) in
  let '(r, s') := checkRateLimit 2 "k" 1 1000 s in
  allowed r = false /\ requests s' !! "k"%string = Some {| count := 2; resetTime := 1000 |}.
Proof. vm_compute. done. Qed.

(** The scenario of the specification: two checks of ["facebook:feed"]
    with limit [1] within one window of a minute. *)
Example two_checks_in_one_window :
  let '(r1, s1) := checkRateLimit 0 "facebook:feed" 1 60000 (new ∅) in
  let '(r2, _) := checkRateLimit 10 "facebook:feed" 1 60000 s1 in
  r1 = {| allowed := true; remaining := 0; result_resetTime := 60000;
          retryAfter := None |} /\
  r2 = {| allowed := false; remaining := 0; result_resetTime := 60000;
          retryAfter := Some 60 |}.
Proof. vm_compute. done. Qed.

(** C2.  When a check of [k] arrives at a time [now] that has reached the
    [resetTime] of the window held for [k], the window it leaves is a fresh
    one: its [resetTime] is [now + windowMs] and its count is [1] when the
    request is allowed (which it is exactly when the limit is positive) and
    [0] otherwise, whatever the count of the old window was. *)
Theorem expired_window_is_replaced (now : Z) (k : string) (m w : Z) (s : t)
    (old : Window) :
  stored_window k s = Some old ->
  resetTime old <= now ->
  let '(r, s') := checkRateLimit now k m w s in
  let fresh := {| count := if 0 <? m then 1 else 0; resetTime := now + w |} in
  requests s' !! k = Some fresh /\
  (0 < m -> storage s' !! k = Some fresh) /\
  allowed r = (0 <? m) /\
  remaining r = Z.max 0 (m - count fresh) /\
  result_resetTime r = now + w.
Proof.
  intros Hold Hexp. rewrite checkRateLimit_unfold.
  unfold load. rewrite Hold. cbn [default id].
  unfold expire. replace (now >=? resetTime old) with true by (symmetry; lia).
  unfold admit_one. cbn [count resetTime requests storage allowed remaining result_resetTime].
  destruct (0 <? m) eqn:Hm; cbn [count resetTime];
    rewrite !lookup_insert_eq; repeat split; try done; lia.
Qed.

(** C2: the theorem at a user whose window of fifty requests is used up
    and ends at this very millisecond. *)
Lemma expired_window_is_replaced_witness :
  let s := {| requests := {[ "user:7"%string := {| count := 50; resetTime := 1000 |} ]};
              storage := ∅ |} in
  stored_window "user:7" s = Some {| count := 50; resetTime := 1000 |} /\
  1000 <= 1000 /\
  let '(r, s') := checkRateLimit 1000 "user:7" 50 300000 s in
  let fresh := {| count := if 0 <? 50 then 1 else 0; resetTime := 1000 + 300000 |} in
  requests s' !! "user:7"%string = Some fresh /\
  (0 < 50 -> storage s' !! "user:7"%string = Some fresh) /\
  allowed r = (0 <? 50) /\
  remaining r = Z.max 0 (50 - count fresh) /\
  result_resetTime r = 1000 + 300000.
Proof.
  intros s.
  assert (H : stored_window "user:7" s = Some {| count := 50; resetTime := 1000 |})
    by (vm_compute; reflexivity).
  assert (H' : resetTime {| count := 50; resetTime := 1000 |} <= 1000) by (cbn; lia).
  split; [exact H|]. split; [lia|].
  exact (expired_window_is_replaced 1000 "user:7" 50 300000 s _ H H').
Defined.

(** C10, as amended.  For every key, every window length and every limit
    [m >= 1], the check that follows a reset of the key is allowed and
    reports [m - 1] remaining requests. *)
Theorem reset_then_check_allows (now : Z) (k : string) (m w : Z) (s : t) :
  1 <= m ->
  let r := fst (checkRateLimit now k m w (reset k s)) in
  allowed r = true /\ remaining r = m - 1.
Proof.
  intros Hm. rewrite checkRateLimit_unfold. cbn [fst allowed remaining].
  assert (Hload : load now k w (reset k s) = {| count := 0; resetTime := now + w |}).
  { unfold load, stored_window, reset. cbn [requests storage].
    by rewrite !lookup_delete_eq. }
  rewrite Hload. unfold expire, admit_one. cbn [count resetTime].
  destruct (now >=? now + w); cbn [count resetTime];
    replace (0 <? m) with true by (symmetry; lia); cbn [count]; split; try done; lia.
Qed.

(** C10: the theorem at a key whose single request has been used. *)
Lemma reset_then_check_allows_witness :
  let s := snd (checkRateLimit 0 "generation:image" 1 3600000 (new ∅)) in
  1 <= 10 /\
  let r := fst (checkRateLimit 7 "generation:image" 10 3600000
                  (reset "generation:image" s)) in
  allowed r = true /\ remaining r = 10 - 1.
Proof.
  intros s. assert (H : 1 <= 10) by lia. split; [exact H|].
  exact (reset_then_check_allows 7 "generation:image" 10 3600000 s H).
Defined.

(** C10, as stated, fails for the limit [0]: the check after the reset is
    refused. *)
Lemma reset_then_check_with_zero_limit :
  let r := fst (checkRateLimit 7 "k" 0 1000 (reset "k" (new ∅))) in
  allowed r = false /\ remaining r = 0 /\ remaining r <> 0 - 1.
Proof. vm_compute. done. Qed.

(** A check that follows a reset starts from an empty window. *)
Lemma check_after_reset now k m w s :
  1 <= m ->
  let r := fst (checkRateLimit now k m w (reset k s)) in
  allowed r = true /\ remaining r = m - 1.
Proof.
  intros Hm. rewrite checkRateLimit_unfold. cbn [fst allowed remaining].
  unfold load, stored_window, reset. cbn [requests storage].
  rewrite !lookup_delete_eq. cbn [default id].
  unfold expire, admit_one. cbn [count resetTime].
  destruct (now >=? now + w); cbn [count resetTime];
    replace (0 <? m) with true by (symmetry; lia); cbn [count]; split; try done; lia.
Qed.

(** [fetch] routes on the last segment of the path. *)
Lemma fetch_check now b s :
  fetch now {| pathname := "/check"; body := b |} s
  = handleCheck now {| pathname := "/check"; body := b |} s.
Proof. reflexivity. Qed.

Lemma fetch_reset now b s :
  fetch now {| pathname := "/reset"; body := b |} s
  = handleReset {| pathname := "/reset"; body := b |} s.
Proof. reflexivity. Qed.

(** The same through [fetch]: a request to [/reset] and then one to
    [/check] for the same key. *)
Lemma fetch_reset_then_check now now' (b : Body) (s : t) :
  1 <= maxRequests b ->
  let s1 := snd (fetch now {| pathname := "/reset"; body := b |} s) in
  exists r,
    fst (fetch now' {| pathname := "/check"; body := b |} s1) =
      {| status := 200; response_body := JsonBody (JResult r) |} /\
    allowed r = true /\ remaining r = maxRequests b - 1.
Proof.
  intros Hm. rewrite fetch_reset. intros s1. rewrite fetch_check.
  unfold handleReset, handleCheck in *. cbn [snd body] in *. subst s1.
  pose proof (check_after_reset now' (key b) (maxRequests b) (windowMs b) s Hm) as H.
  destruct (checkRateLimit now' (key b) (maxRequests b) (windowMs b) (reset (key b) s))
    as [r s2]. cbn [fst] in *. by exists r.
Qed.

End RateLimiterFacts.

(** ** The service *)

Section ServiceFacts.
Import RateLimitService.

(** C3.  Whatever the key and the configuration, when the call to the
    durable object throws, [checkRateLimit] of the service does not throw:
    it returns [allowed = true] with [remaining = maxRequests] (and a
    [resetTime] one window from now). *)
Theorem check_fails_open {W : Type}
    (RATE_LIMITER : string -> RateLimiter.Request -> W -> Outcome RateLimiter.Response * W)
    (now : Z) (key : string) (config : RateLimitConfig) (w w' : W) (e : string) :
  RATE_LIMITER "global"%string (check_request key config) w = (Throw e, w') ->
  checkRateLimit RATE_LIMITER now key config w =
    (RateLimiter.JResult
       {| RateLimiter.allowed := true;
          RateLimiter.remaining := maxRequests config;
          RateLimiter.result_resetTime := now + windowMs config;
          RateLimiter.retryAfter := None |},
     w').
Proof. intros H. unfold checkRateLimit. by rewrite H. Qed.

(** C3: the theorem at an object that cannot be reached. *)
Lemma check_fails_open_witness :
  let config := {| maxRequests := 200; windowMs := 3600000 |} in
  let w := RateLimiter.new ∅ in
  unreachable "global"%string (check_request "facebook:feed" config) w
    = (Throw "Network connection lost."%string, w) /\
  checkRateLimit unreachable 42 "facebook:feed" config w =
    (RateLimiter.JResult
       {| RateLimiter.allowed := true;
          RateLimiter.remaining := 200;
          RateLimiter.result_resetTime := 42 + 3600000;
          RateLimiter.retryAfter := None |},
     w).
Proof.
  intros config w.
  assert (H : unreachable "global"%string (check_request "facebook:feed" config) w
              = (Throw "Network connection lost."%string, w)) by reflexivity.
  split; [exact H|].
  exact (check_fails_open unreachable 42 "facebook:feed" config w w
           "Network connection lost." H).
Defined.

(** A response whose body is not JSON is answered the same way. *)
Lemma check_fails_open_on_text {W : Type}
    (RATE_LIMITER : string -> RateLimiter.Request -> W -> Outcome RateLimiter.Response * W)
    (now : Z) (key : string) (config : RateLimitConfig) (w w' : W)
    (st : Z) (txt : string) :
  RATE_LIMITER "global"%string (check_request key config) w
    = (Ok {| RateLimiter.status := st;
             RateLimiter.response_body := RateLimiter.TextBody txt |}, w') ->
  fst (checkRateLimit RATE_LIMITER now key config w) =
    RateLimiter.JResult
      {| RateLimiter.allowed := true;
         RateLimiter.remaining := maxRequests config;
         RateLimiter.result_resetTime := now + windowMs config;
         RateLimiter.retryAfter := None |}.
Proof. intros H. unfold checkRateLimit. by rewrite H. Qed.

(** When the object is reached, the service returns the object's answer. *)
Lemma check_reaches_object clock now key config s :
  checkRateLimit (reachable clock) now key config s =
    let '(r, s') := RateLimiter.checkRateLimit clock key (maxRequests config)
                      (windowMs config) s in
    (RateLimiter.JResult r, s').
Proof.
  unfold checkRateLimit, reachable, RateLimiter.fetch, check_request.
  cbn. unfold RateLimiter.handleCheck. cbn.
  by destruct (RateLimiter.checkRateLimit _ _ _ _ _).
Qed.

End ServiceFacts.

(** ** The scheduling queue *)

Section DatabaseFacts.
Import Database Scenarios.

Lemma queue_trigger_fields ts old new :
  id (queue_trigger ts old new) = id new /\
  content_id (queue_trigger ts old new) = content_id new /\
  status (queue_trigger ts old new) = status new.
Proof. unfold queue_trigger. by destruct (String.eqb _ _). Qed.

Lemma content_trigger_fields ts old new :
  content_id_of (content_trigger ts old new) = content_id_of new /\
  content_status (content_trigger ts old new) = content_status new.
Proof. unfold content_trigger. by destruct (String.eqb _ _). Qed.

(** C4, as amended.  [updateSchedulingQueueStatus] checks no transition:
    whatever status an item with the given id has, it gets the requested
    one; the items with other ids, and the content table, are left as they
    are. *)
Theorem update_sets_any_status (now ts : string) (i : Z) (st : QueueStatus)
    (fb err : option string) (db : DB) :
  let db' := updateSchedulingQueueStatus now ts i st fb err db in
  Forall2 (fun q q' =>
             id q' = id q /\ content_id q' = content_id q /\
             (id q = i -> status q' = st) /\
             (id q <> i -> q' = q))
          (scheduling_queue db) (scheduling_queue db') /\
  content db' = content db.
Proof.
  cbn. split; [|done].
  induction (scheduling_queue db) as [|q l IH]; cbn [map]; constructor; [|exact IH].
  destruct (Z.eqb_spec (id q) i) as [E|E].
  - destruct (queue_trigger_fields ts q
      {| id := id q; content_id := content_id q; scheduled_time := scheduled_time q;
         fb_post_id := if truthy fb then fb else fb_post_id q; status := st;
         retry_count := if truthy err then retry_count q + 1 else retry_count q;
         error_message := if truthy err then err else error_message q;
         created_at := created_at q; updated_at := now |}) as (H1 & H2 & H3).
    rewrite H1, H2, H3. cbn. repeat split; done.
  - repeat split; done.
Qed.

(** C4, as stated, fails: an item that went from queued through scheduled
    and posting to posted is put back to queued by one more update, though
    the declared graph has no edge from posted to queued. *)
Lemma posted_item_is_requeued :
  let db := run [OpSchedule morning morning morning_timestamp "c1" afternoon;
                 OpUpdate morning morning_timestamp 1 scheduled None None;
                 OpUpdate morning morning_timestamp 1 posting None None;
                 OpUpdate morning morning_timestamp 1 posted (Some "fb_1"%string) None]
                db0 in
  let db' := updateSchedulingQueueStatus morning morning_timestamp 1 queued None None db in
  map (fun q => (id q, status q)) (scheduling_queue db) = [(1, posted)] /\
  map (fun q => (id q, status q)) (scheduling_queue db') = [(1, queued)] /\
  declared_edge posted queued = false.
Proof. vm_compute. done. Qed.

Lemma rowid_bound (l : list SchedulingQueueItem) (seq : Z) :
  Forall (fun q => id q <= fold_right Z.max seq (map id l)) l.
Proof.
  induction l as [|q l IH]; constructor; cbn [map fold_right]; [lia|].
  eapply Forall_impl; [exact IH|]. cbn. intros. lia.
Qed.

Lemma find_new_row (l : list SchedulingQueueItem) (row : SchedulingQueueItem) :
  Forall (fun q => id q < id row) l ->
  find (fun q => id q =? id row) (l ++ [row]) = Some row.
Proof.
  induction 1 as [|q l Hq Hl IH]; cbn [app find].
  - by rewrite Z.eqb_refl.
  - replace (id q =? id row) with false by (symmetry; lia). exact IH.
Qed.

(** C5, as amended.  For a content id that has a row in [content],
    [scheduleContent] returns a new queue item in status queued, appended to
    the queue, and sets the status of the content row to scheduled.  It does
    not look for items the content already has: the number of its
    non-terminal items grows by one. *)
Theorem schedule_adds_queued_item (now now' ts cid time : string) (db : DB) :
  has_content cid db = true ->
  exists item,
    let db' := snd (scheduleContent now now' ts cid time db) in
    fst (scheduleContent now now' ts cid time db) = Ok item /\
    status item = queued /\ content_id item = cid /\
    scheduling_queue db' = scheduling_queue db ++ [item] /\
    Forall (fun r => content_id_of r = cid -> content_status r = content_scheduled)
           (content db') /\
    length (active_items cid db') = S (length (active_items cid db)).
Proof.
  intros Hc. unfold scheduleContent. rewrite Hc, andb_false_r.
  cbn [fst snd]. unfold getSchedulingQueueItem, updateContentStatus.
  cbn [scheduling_queue content].
  set (row := {| id := next_rowid db; content_id := cid; scheduled_time := time;
                 fb_post_id := None; status := queued; retry_count := 0;
                 error_message := None; created_at := now; updated_at := now |}).
  exists row.
  assert (Hfind : find (fun q => id q =? next_rowid db) (scheduling_queue db ++ [row])
                  = Some row).
  { apply (find_new_row (scheduling_queue db) row).
    eapply Forall_impl; [apply (rowid_bound _ (sqlite_sequence db))|].
    cbn. unfold next_rowid. intros. lia. }
  rewrite Hfind. repeat split.
  - apply List.Forall_forall. intros r Hr. apply in_map_iff in Hr as (r0 & <- & _).
    destruct (String.eqb_spec (content_id_of r0) cid) as [E|E]; [|done].
    intros _. by destruct (content_trigger_fields ts r0
      {| content_id_of := content_id_of r0; type := type r0; source := source r0;
         source_url := source_url r0; prompt := prompt r0;
         generated_content_url := generated_content_url r0; caption := caption r0;
         hashtags := hashtags r0; content_status := content_scheduled;
         ai_provider := ai_provider r0; generation_metadata := generation_metadata r0;
         content_created_at := content_created_at r0; content_updated_at := now';
         scheduled_at := scheduled_at r0; posted_at := posted_at r0 |}) as [_ ->].
  - unfold active_items at 1. cbn [scheduling_queue].
    rewrite List.filter_app, List.length_app.
    cbn [List.filter content_id status row non_terminal].
    rewrite String.eqb_refl. cbn. unfold active_items. lia.
Qed.

(** C5: the theorem at the first scheduling of an approved video. *)
Lemma schedule_adds_queued_item_witness :
  has_content "c1" db0 = true /\
  exists item,
    let db' := snd (scheduleContent morning morning morning_timestamp "c1" afternoon db0) in
    fst (scheduleContent morning morning morning_timestamp "c1" afternoon db0) = Ok item /\
    status item = queued /\ content_id item = "c1"%string /\
    scheduling_queue db' = scheduling_queue db0 ++ [item] /\
    Forall (fun r => content_id_of r = "c1"%string -> content_status r = content_scheduled)
           (content db') /\
    length (active_items "c1" db') = S (length (active_items "c1" db0)).
Proof.
  assert (H : has_content "c1" db0 = true) by reflexivity.
  split; [exact H|].
  exact (schedule_adds_queued_item morning morning morning_timestamp "c1" afternoon db0 H).
Defined.

(** C5, as stated, fails: scheduling the same content twice leaves two
    queued items for it. *)
Lemma content_scheduled_twice :
  let db := run [OpSchedule morning morning morning_timestamp "c1" afternoon;
                 OpSchedule morning morning morning_timestamp "c1" evening] db0 in
  map (fun q => (id q, content_id q, status q)) (active_items "c1" db) =
    [(1, "c1"%string, queued); (2, "c1"%string, queued)] /\
  (1 < length (active_items "c1" db))%nat.
Proof. vm_compute. split; [done|lia]. Qed.

(** Without a row in [content], and with foreign keys enforced, the INSERT
    throws and nothing changes. *)
Example schedule_unknown_content :
  scheduleContent morning morning morning_timestamp "nope" afternoon db0
  = (Throw "FOREIGN KEY constraint failed", db0).
Proof. reflexivity. Qed.

End DatabaseFacts.

(** ** Sorting and slicing *)

Section JsFacts.
Context {A : Type}.
Variable compareFn : A -> A -> Q.

Lemma insert_Permutation x l : Permutation (Js.insert compareFn x l) (x :: l).
Proof.
  induction l as [|y ys IH]; cbn [Js.insert]; [done|].
  destruct (Qle_bool (compareFn x y) 0); [done|].
  rewrite IH. apply perm_swap.
Qed.

Lemma sort_Permutation l : Permutation (Js.sort compareFn l) l.
Proof.
  induction l as [|x l IH]; cbn [Js.sort fold_right]; [done|].
  fold (Js.sort compareFn l). by rewrite insert_Permutation, IH.
Qed.

Lemma slice0_all (e : Z) (l : list A) :
  Z.of_nat (length l) <= e -> Js.slice0 e l = l.
Proof.
  intros H. unfold Js.slice0.
  replace (e <? 0) with false by (symmetry; lia).
  rewrite Z.min_r by lia. rewrite Nat2Z.id. apply firstn_all.
Qed.

Lemma slice0_length (e : Z) (l : list A) :
  0 <= e -> Z.of_nat (length (Js.slice0 e l)) <= e.
Proof.
  intros H. unfold Js.slice0.
  replace (e <? 0) with false by (symmetry; lia).
  rewrite length_firstn. lia.
Qed.

Lemma slice0_In (e : Z) (l : list A) x : In x (Js.slice0 e l) -> In x l.
Proof.
  unfold Js.slice0. intros H.
  rewrite <- (firstn_skipn (Z.to_nat
    (if e <? 0 then Z.max (Z.of_nat (length l) + e) 0
     else Z.min e (Z.of_nat (length l)))) l).
  apply in_or_app. by left.
Qed.

Lemma firstn_Sorted (R : A -> A -> Prop) n l : Sorted R l -> Sorted R (firstn n l).
Proof.
  intros H. revert n. induction H as [|x l Hl IH Hhd]; intros [|n]; cbn [firstn];
    try constructor; [apply IH|].
  destruct Hhd; destruct n; cbn [firstn]; by constructor.
Qed.
End JsFacts.

(** ** Content discovery *)

Section DiscoveryFacts.
Import Discovery Scenarios.
Local Open Scope Q_scope.

Lemma Qlt_bool_true a b : Qlt_bool a b = true -> a < b.
Proof.
  unfold Qlt_bool. intros H. apply Qnot_le_lt. intros Hle.
  apply Qle_bool_iff in Hle. rewrite Hle in H. discriminate.
Qed.

Lemma inject_Z_nonneg z : (0 <= z)%Z -> 0 <= inject_Z z.
Proof. intros H. change 0 with (inject_Z 0). by rewrite <- Zle_Qle. Qed.

Lemma Qdiv_nonneg (x c : Q) : 0 <= x -> 0 < c -> 0 <= x / c.
Proof. intros Hx Hc. apply Qle_shift_div_l; [exact Hc|]. lra. Qed.

Lemma recency_bonus_nonneg (h c : Q) :
  0 < c -> Qlt_bool h c = true -> 0 <= (1 # 10) * (1 - h / c).
Proof.
  intros Hc Hlt. apply Qlt_bool_true in Hlt.
  assert (H : h / c < 1) by (apply Qlt_shift_div_r; [exact Hc|lra]).
  revert H. generalize (h / c). intros r Hr. lra.
Qed.

(** *** Quality scores *)

Lemma reddit_quality_upper now post : calculateRedditQuality now post <= 1.
Proof. unfold calculateRedditQuality. apply Q.le_min_r. Qed.

Lemma reddit_quality_lower now post :
  (0 <= post_score post)%Z -> 0 <= calculateRedditQuality now post.
Proof.
  intros Hs. unfold calculateRedditQuality.
  apply Q.min_glb; [|lra].
  set (h := inject_Z (now - created_utc post * 1000) / inject_Z (1000 * 60 * 60)).
  assert (Ha : 0 <= Qmin (inject_Z (post_score post) / 1000) (4 # 10)).
  { apply Q.min_glb; [|lra].
    apply Qdiv_nonneg; [by apply inject_Z_nonneg|reflexivity]. }
  assert (Hb : (0 <? num_comments post)%Z = true ->
               0 <= Qmin (inject_Z (num_comments post) / 100) (3 # 10)).
  { intros E. apply Q.min_glb; [|lra].
    apply Qdiv_nonneg; [apply inject_Z_nonneg; lia|reflexivity]. }
  assert (Hc : Qlt_bool h 24 = true -> 0 <= (1 # 10) * (1 - h / 24))
    by (apply recency_bonus_nonneg; reflexivity).
  revert Ha Hb Hc.
  generalize (Qmin (inject_Z (post_score post) / 1000) (4 # 10)).
  generalize (Qmin (inject_Z (num_comments post) / 100) (3 # 10)).
  generalize ((1 # 10) * (1 - h / 24)).
  intros c b a Ha Hb Hc.
  destruct (0 <? num_comments post)%Z; [specialize (Hb eq_refl)|];
    destruct (is_video post || is_image_url (url post));
    destruct (Qlt_bool h 24); try specialize (Hc eq_refl); lra.
Qed.

Lemma news_quality_bounds now article :
  5 # 10 <= calculateNewsQuality now article <= 1.
Proof.
  unfold calculateNewsQuality. split; [|apply Q.le_min_r].
  apply Q.min_glb; [|lra].
  set (h := inject_Z (now - publishedAt article) / inject_Z (1000 * 60 * 60)).
  assert (Hc : Qlt_bool h 48 = true -> 0 <= (1 # 10) * (1 - h / 48))
    by (apply recency_bonus_nonneg; reflexivity).
  revert Hc. generalize ((1 # 10) * (1 - h / 48)). intros c Hc.
  destruct (truthy (urlToImage article));
    destruct (existsb _ reputableSources);
    destruct (Qlt_bool h 48); try specialize (Hc eq_refl); lra.
Qed.

Lemma keep_post_score post : keep_post post = true -> (10 < post_score post)%Z.
Proof.
  unfold keep_post. intros H.
  apply andb_prop in H as [H _]. apply andb_prop in H as [_ H]. lia.
Qed.

(** Posts at ten points or fewer never reach the scoring: whatever
    [parseRedditContent] returns has a quality between [0] and [1]. *)
Lemma parsed_quality_in_unit_interval now posts sub item :
  In item (parseRedditContent now posts sub) -> 0 <= quality item <= 1.
Proof.
  intros Hin. unfold parseRedditContent in Hin.
  apply in_map_iff in Hin as (post & <- & Hpost).
  apply filter_In in Hpost as [_ Hkeep]. apply keep_post_score in Hkeep.
  cbn [quality to_content].
  split; [apply reddit_quality_lower; lia|apply reddit_quality_upper].
Qed.

(** C9.  Every quality score the service computes lies in the closed
    interval from [0] to [1].  For Reddit the scores are computed by
    [parseRedditContent], the one caller of [calculateRedditQuality]: for
    any posts, with any raw scores (negative ones too), comment counts, ages
    and media, every item it returns has a quality in the interval, since a
    post at ten points or fewer is dropped before it is scored.  The
    function itself stays in the interval for every post whose score is not
    negative, zero included, and [calculateNewsQuality] for every
    article. *)
Theorem quality_in_unit_interval (now : Z) :
  (forall posts sub item,
     In item (parseRedditContent now posts sub) -> 0 <= quality item <= 1) /\
  (forall post,
     (0 <= post_score post)%Z -> 0 <= calculateRedditQuality now post <= 1) /\
  (forall article, 0 <= calculateNewsQuality now article <= 1).
Proof.
  split; [|split].
  - intros posts sub item. apply parsed_quality_in_unit_interval.
  - intros post Hs. split; [by apply reddit_quality_lower|apply reddit_quality_upper].
  - intros article. pose proof (news_quality_bounds now article). lra.
Qed.

(** The score of a post without votes, comments or media, created this
    very moment: the recency bonus alone. *)
Example quality_of_unvoted_post :
  (post_score unvoted, num_comments unvoted, noon - created_utc unvoted * 1000)%Z
    = (0, 0, 0)%Z /\
  calculateRedditQuality noon unvoted == 1 # 10.
Proof. split; reflexivity. Qed.

(** A post that was voted down is not scored: [parseRedditContent] drops
    it, whatever else the listing holds. *)
Example downvoted_post_is_not_scored :
  (post_score downvoted = -1000)%Z /\
  parseRedditContent noon [downvoted; tabby] "cats"
    = [to_content noon "cats" tabby].
Proof. split; reflexivity. Qed.

(** *** The order of the result *)

Lemma insert_Sorted now x l :
  Sorted (ranked_before now) l ->
  Sorted (ranked_before now) (Js.insert (compareFn now) x l).
Proof.
  induction 1 as [|y ys Hys IH Hhd]; cbn [Js.insert]; [by repeat constructor|].
  destruct (Qle_bool (compareFn now x y) 0) eqn:E.
  - apply Qle_bool_iff in E. unfold compareFn in E.
    constructor; [by constructor|]. constructor. unfold ranked_before. lra.
  - assert (Hyx : ranked_before now y x).
    { unfold ranked_before.
      destruct (Qlt_le_dec (sort_score now x) (sort_score now y)) as [H|H].
      - by apply Qlt_le_weak.
      - exfalso. assert (H' : compareFn now x y <= 0) by (unfold compareFn; lra).
        apply Qle_bool_iff in H'. congruence. }
    constructor; [exact IH|].
    destruct ys as [|z zs]; cbn [Js.insert]; [by constructor|].
    destruct (Qle_bool (compareFn now x z) 0); constructor; [exact Hyx|].
    by inversion Hhd.
Qed.

Lemma sort_Sorted now l : Sorted (ranked_before now) (Js.sort (compareFn now) l).
Proof.
  induction l as [|x l IH]; cbn [Js.sort fold_right]; [constructor|].
  by apply insert_Sorted.
Qed.

(** The result is in descending order of [quality * 0.7 + ageDays * 0.3],
    the key of the code, and, for a limit that is not negative, no longer
    than the limit. *)
Lemma discoverContent_Sorted S now maxItems sources :
  Sorted (ranked_before now) (discoverContent S now maxItems sources).
Proof. unfold discoverContent, Js.slice0. apply firstn_Sorted, sort_Sorted. Qed.

Lemma discoverContent_length S now maxItems sources :
  (0 <= maxItems)%Z ->
  (Z.of_nat (length (discoverContent S now maxItems sources)) <= maxItems)%Z.
Proof. apply slice0_length. Qed.

(** The comparator does not depend on the reading of the clock. *)
Lemma compareFn_clock now now' a b : compareFn now a b == compareFn now' a b.
Proof.
  unfold compareFn, sort_score, Qdiv.
  unfold Z.sub. rewrite !inject_Z_plus, !inject_Z_opp.
  generalize (/ inject_Z (24 * 60 * 60 * 1000)). intros c. ring.
Qed.

(** The key of the code grows with the age of an item, where the declared
    key grows with its recency. *)
Lemma sort_score_prefers_age now a b :
  quality a == quality b -> (createdAt a <= createdAt b)%Z ->
  ranked_before now a b.
Proof.
  intros Hq Ht. unfold ranked_before, sort_score. rewrite Hq.
  apply Qplus_le_r. apply Qmult_le_compat_r; [|lra].
  apply Qmult_le_compat_r; [|by apply Qlt_le_weak].
  rewrite <- Zle_Qle. lia.
Qed.

(** C7: of two items of the same quality, one created at noon and one
    twelve hours earlier, the result lists the older one first, although its
    declared rank is the lower one. *)
Lemma older_item_ranked_first :
  discoverContent (fixed_sources (Js.Fulfilled [newer; older]) (Js.Fulfilled [])
                                 (Js.Fulfilled []))
                  noon 10 [ask_reddit] = [older; newer] /\
  quality older == quality newer /\
  (createdAt older < createdAt newer)%Z /\
  declared_rank noon older < declared_rank noon newer.
Proof. vm_compute. repeat split. Qed.

(** *** Duplicates *)

(** C6, as stated, fails: the news source asks the API for [cat] and for
    [cats]; when both answers hold the same article, the result holds it
    twice, with the same id, source and URL. *)
Lemma same_article_returned_twice :
  exists a b,
    discoverContent (service_sources noon no_cache no_reddit same_article_api)
                    noon 10 [ask_reddit; ask_twitter; ask_news] = [a; b] /\
    id a = id b /\ source a = source b /\ sourceUrl a = sourceUrl b /\
    same_natural_key a b = true.
Proof. eexists _, _. vm_compute. repeat split. Qed.

(** C6, as amended.  [discoverContent] removes nothing: when the fulfilled
    sources deliver at most [maxItems] items, the result is a rearrangement
    of all of them, those with equal natural keys included. *)
Theorem all_items_are_kept (S : Sources) (now maxItems : Z) (sources : list Requested) :
  let allContent := fulfilled_values (promises S maxItems sources) in
  (Z.of_nat (length allContent) <= maxItems)%Z ->
  Permutation (discoverContent S now maxItems sources) allContent.
Proof.
  intros allContent Hlen. unfold discoverContent. fold allContent.
  rewrite slice0_all; [apply sort_Permutation|].
  by rewrite (Permutation_length (sort_Permutation (compareFn now) allContent)).
Qed.

(** C6: the theorem at the news source alone. *)
Lemma all_items_are_kept_witness :
  let S := service_sources noon no_cache no_reddit same_article_api in
  let allContent := fulfilled_values (promises S 10 [ask_news]) in
  (Z.of_nat (length allContent) <= 10)%Z /\
  Permutation (discoverContent S noon 10 [ask_news]) allContent.
Proof.
  intros S allContent.
  assert (H : (Z.of_nat (length allContent) <= 10)%Z) by (vm_compute; discriminate).
  split; [exact H|]. exact (all_items_are_kept S noon 10 [ask_news] H).
Defined.

(** *** A failing source *)

(** With every call answered, the methods of [Awaited] return what those
    of [Discovery] give. *)
Lemma reddit_loop_answered cache api news now limit subs discovered :
  Awaited.reddit_loop (Awaited.answering cache api news) now limit subs discovered
  = Awaited.Settles (reddit_loop cache api now limit subs discovered).
Proof.
  revert discovered. induction subs as [|sub rest IH]; intros discovered; [done|].
  cbn [Awaited.reddit_loop reddit_loop Awaited.answering Awaited.await
       Awaited.getCachedRedditData Awaited.fetchRedditSubreddit
       Awaited.cacheRedditData].
  destruct (cache sub) as [posts|]; [apply IH|].
  destruct (api sub _) as [posts|]; apply IH.
Qed.

Lemma news_loop_answered cache api news now limit keywords discovered :
  Awaited.news_loop (Awaited.answering cache api news) now limit keywords discovered
  = Awaited.Settles (news_loop news now limit keywords discovered).
Proof.
  revert discovered. induction keywords as [|keyword rest IH]; intros discovered; [done|].
  cbn [Awaited.news_loop news_loop Awaited.answering Awaited.await Awaited.newsapi bind].
  destruct (news keyword _) as [response|e]; cbn [bind]; [|done].
  destruct (ok response); cbn [negb]; [|apply IH].
  destruct (articles response) as [data|e]; cbn [bind]; [apply IH|done].
Qed.

Lemma discoverContent_answered cache api news now maxItems sources :
  Awaited.discoverContent (Awaited.answering cache api news) now maxItems sources
  = Awaited.Settles
      (discoverContent (service_sources now cache api news) now maxItems sources).
Proof.
  unfold Awaited.discoverContent, discoverContent, Awaited.promises, promises,
    Awaited.discoverFromReddit, Awaited.discoverFromNews, Awaited.discoverFromTwitter.
  rewrite reddit_loop_answered, news_loop_answered.
  cbn [Awaited.await service_sources fromReddit fromTwitter fromNews].
  destruct (includes ask_reddit sources), (includes ask_twitter sources),
           (includes ask_news sources); reflexivity.
Qed.

(** A method whose promise is never settled keeps [discoverContent] from
    returning, whatever the other methods deliver. *)
Lemma allSettled_Never {A : Type} (promises : list (Awaited.Promise A)) :
  In Awaited.Never promises -> Awaited.allSettled promises = Awaited.Never.
Proof.
  induction promises as [|p rest IH]; intros Hin; [destruct Hin|].
  cbn [Awaited.allSettled]. destruct p as [value|]; [|done].
  destruct Hin as [Hin|Hin]; [discriminate|].
  cbn [Awaited.await]. by rewrite IH.
Qed.

Lemma unsettled_news_blocks_discovery c now maxItems sources :
  includes ask_news sources = true ->
  Awaited.discoverFromNews c now (ceil_div maxItems (Z.of_nat (length sources)))
    = Awaited.Never ->
  Awaited.discoverContent c now maxItems sources = Awaited.Never.
Proof.
  intros Hin Hnews. unfold Awaited.discoverContent.
  rewrite allSettled_Never; [done|].
  unfold Awaited.promises. rewrite Hin, Hnews.
  apply in_or_app. right. apply in_or_app. right. by left.
Qed.

(** What a failing source delivers, and how much another one can. *)
Lemma reddit_loop_nothing cache api now limit subs discovered :
  (forall sub, cache sub = None) -> (forall sub n, api sub n = None) ->
  reddit_loop cache api now limit subs discovered = discovered.
Proof.
  intros Hc Ha. induction subs as [|sub rest IH]; [done|].
  cbn [reddit_loop]. by rewrite Hc, Ha.
Qed.

Lemma failing_source_gives_nothing k cache api news now limit :
  Awaited.always_fails k cache api news ->
  items_of (service_sources now cache api news) limit k = [].
Proof.
  destruct k; cbn [Awaited.always_fails]; [|tauto|]; intros Hfail;
    unfold items_of; cbn [method service_sources fromReddit fromNews].
  - destruct Hfail as [Hc Ha]. unfold discoverFromReddit.
    rewrite reddit_loop_nothing by done. unfold Js.slice0. apply firstn_nil.
  - unfold discoverFromNews. cbn [firstn newsKeywords news_loop].
    destruct (Hfail "cat"%string (ceil_div limit 2)) as [e ->]. reflexivity.
Qed.

Lemma source_gives_at_most_limit k cache api news now limit :
  (0 <= limit)%Z ->
  (Z.of_nat (length (items_of (service_sources now cache api news) limit k)) <= limit)%Z.
Proof.
  intros Hl. unfold items_of.
  destruct k; cbn [method service_sources fromReddit fromTwitter fromNews].
  - by apply slice0_length.
  - cbn. lia.
  - unfold discoverFromNews.
    destruct (news_loop news now limit (firstn 2 newsKeywords) []); cbn [bind try_catch];
      [by apply slice0_length|cbn; lia].
Qed.

Lemma ceil_div_bounds (a b : Z) : (0 <= a)%Z -> (1 <= b)%Z -> (0 <= ceil_div a b <= a)%Z.
Proof.
  intros Ha Hb. unfold ceil_div.
  pose proof (Z.div_mod (- a) b ltac:(lia)) as E.
  pose proof (Z.mod_pos_bound (- a) b ltac:(lia)) as Hr.
  split; nia.
Qed.

Lemma includes_length k sources :
  includes k sources = true -> (1 <= Z.of_nat (length sources))%Z.
Proof. destruct sources; [discriminate|]. cbn [length]. lia. Qed.

Lemma fulfilled_values_service cache api news now maxItems sources :
  let S := service_sources now cache api news in
  fulfilled_values (promises S maxItems sources)
  = flat_map (items_of S (ceil_div maxItems (Z.of_nat (length sources))))
      (List.filter (fun k => includes k sources) [ask_reddit; ask_twitter; ask_news]).
Proof.
  intros S. unfold promises, fulfilled_values, items_of. cbn [List.filter].
  destruct (includes ask_reddit sources), (includes ask_twitter sources),
           (includes ask_news sources);
    cbn [app flat_map method S service_sources fromReddit fromTwitter fromNews
         discoverFromTwitter];
    rewrite ?app_nil_r; reflexivity.
Qed.

(** The items of the sources other than a failing one: all the items there
    are, and no more than the limit of one source. *)
Lemma others_of_failing_source k cache api news now maxItems sources :
  (0 <= maxItems)%Z ->
  includes k sources = true ->
  Awaited.always_fails k cache api news ->
  let S := service_sources now cache api news in
  fulfilled_values (promises S maxItems sources) = union_of_others k S maxItems sources /\
  (Z.of_nat (length (union_of_others k S maxItems sources)) <= maxItems)%Z.
Proof.
  intros Hm Hin Hfail S.
  pose proof (includes_length k sources Hin) as Hn.
  pose proof (ceil_div_bounds maxItems _ Hm Hn) as Hlimit.
  set (limit := ceil_div maxItems (Z.of_nat (length sources))) in *.
  pose proof (failing_source_gives_nothing k cache api news now limit Hfail) as Hk.
  pose proof (fun k' => source_gives_at_most_limit k' cache api news now limit
                          (proj1 Hlimit)) as Hlen.
  assert (Htw : items_of S limit ask_twitter = []) by reflexivity.
  fold S in Hk, Hlen.
  unfold S at 1. rewrite fulfilled_values_service. fold S. fold limit.
  unfold union_of_others. fold limit.
  pose proof (Hlen ask_reddit) as Hr. pose proof (Hlen ask_news) as Hw.
  destruct k; [|destruct Hfail|]; cbn [List.filter Requested_eqb negb andb];
    rewrite ?andb_true_r, ?andb_false_r;
    destruct (includes ask_reddit sources), (includes ask_twitter sources),
             (includes ask_news sources);
    try discriminate;
    cbn [flat_map]; rewrite ?Hk, ?Htw, ?app_nil_r; cbn [app length];
    split; try reflexivity; lia.
Qed.

(** C8, as amended.  When one requested source fails at every call it
    makes, whatever the reason thrown, and every call is answered,
    [discoverContent] returns for any limit that is not negative: the
    failing source contributes no item, and the result is the sorted list of
    all the items of the other requested sources, none cut off. *)
Theorem failing_source_is_skipped (k : Requested) (now maxItems : Z)
    (sources : list Requested)
    (cache : string -> option (list RedditPost))
    (api : string -> Z -> option (list RedditPost))
    (news : string -> Z -> Outcome NewsResponse) :
  (0 <= maxItems)%Z ->
  includes k sources = true ->
  Awaited.always_fails k cache api news ->
  let S := service_sources now cache api news in
  let others := union_of_others k S maxItems sources in
  items_of S (ceil_div maxItems (Z.of_nat (length sources))) k = [] /\
  exists result,
    Awaited.discoverContent (Awaited.answering cache api news) now maxItems sources
      = Awaited.Settles result /\
    result = Js.sort (compareFn now) others /\
    Permutation result others.
Proof.
  intros Hm Hin Hfail S others.
  split; [by apply failing_source_gives_nothing|].
  destruct (others_of_failing_source k cache api news now maxItems sources Hm Hin Hfail)
    as [Hall Hlen].
  fold S in Hall, Hlen. fold others in Hall, Hlen.
  exists (Js.sort (compareFn now) others).
  split; [|split; [reflexivity|apply sort_Permutation]].
  rewrite discoverContent_answered. fold S. unfold discoverContent.
  rewrite Hall. f_equal. apply slice0_all.
  by rewrite (Permutation_length (sort_Permutation (compareFn now) others)).
Qed.

(** C8: the theorem at a news API whose every query fails, beside a Reddit
    with one cached post. *)
Lemma failing_source_is_skipped_witness :
  let sources := [ask_reddit; ask_twitter; ask_news] in
  (0 <= 1)%Z /\
  includes ask_news sources = true /\
  Awaited.always_fails ask_news cats_cached no_reddit news_down /\
  let S := service_sources noon cats_cached no_reddit news_down in
  let others := union_of_others ask_news S 1 sources in
  items_of S (ceil_div 1 (Z.of_nat (length sources))) ask_news = [] /\
  exists result,
    Awaited.discoverContent (Awaited.answering cats_cached no_reddit news_down)
      noon 1 sources = Awaited.Settles result /\
    result = Js.sort (compareFn noon) others /\
    Permutation result others.
Proof.
  intros sources.
  assert (H1 : (0 <= 1)%Z) by lia.
  assert (H2 : includes ask_news sources = true) by reflexivity.
  assert (H3 : Awaited.always_fails ask_news cats_cached no_reddit news_down).
  { intros keyword pageSize. eexists. reflexivity. }
  split; [exact H1|]. split; [exact H2|]. split; [exact H3|].
  exact (failing_source_is_skipped ask_news noon 1 sources cats_cached no_reddit
           news_down H1 H2 H3).
Defined.

(** The result of that run: the one item of Reddit. *)
Example failing_news_example :
  Awaited.discoverContent (Awaited.answering cats_cached no_reddit news_down)
    noon 1 [ask_reddit; ask_twitter; ask_news]
  = Awaited.Settles [to_content noon "cats" tabby].
Proof. vm_compute. reflexivity. Qed.

(** The same with a failing Reddit: no cache entry and no answer for any
    subreddit; the two items of the news are returned. *)
Example failing_reddit_example :
  Awaited.always_fails ask_reddit no_cache no_reddit same_article_api /\
  exists result,
    Awaited.discoverContent (Awaited.answering no_cache no_reddit same_article_api)
      noon 10 [ask_reddit; ask_news] = Awaited.Settles result /\
    map id result = ["news_l6qbfg"; "news_l6qbfg"]%string.
Proof.
  split; [by split|]. eexists. split; [reflexivity|]. vm_compute. reflexivity.
Qed.

(** C8, as stated, fails for a source that times out.  No call is bounded
    in time, so a source whose call is not answered is not given up: with a
    cached post for Reddit and a news API that never answers, the Reddit
    method delivers its item, the news method is never settled, and
    [discoverContent] never returns. *)
Lemma unanswered_source_blocks_discovery :
  let sources := [ask_reddit; ask_news] in
  let limit := ceil_div 10 (Z.of_nat (length sources)) in
  Awaited.discoverFromReddit news_silent noon limit
    = Awaited.Settles [to_content noon "cats" tabby] /\
  Awaited.discoverFromNews news_silent noon limit = Awaited.Never /\
  Awaited.discoverContent news_silent noon 10 sources = Awaited.Never /\
  forall result, Awaited.discoverContent news_silent noon 10 sources
                 <> Awaited.Settles result.
Proof.
  intros sources limit.
  assert (H : Awaited.discoverContent news_silent noon 10 sources = Awaited.Never)
    by reflexivity.
  split; [vm_compute; reflexivity|]. split; [reflexivity|]. split; [exact H|].
  intros result. rewrite H. discriminate.
Qed.

(** *** The sources at work *)

Example hashString_example :
  hashString "https://example.com/a" = "se6lk0"%string.
Proof. vm_compute. reflexivity. Qed.

Example news_item_example :
  map (fun c => (id c, tags c, Qeq_bool (quality c) (479 # 480)))
      (discoverFromNews same_article_api noon 10)
  = [("news_l6qbfg"%string, ["news"; "cat"]%string, true);
     ("news_l6qbfg"%string, ["news"; "cats"]%string, true)].
Proof. vm_compute. reflexivity. Qed.

End DiscoveryFacts.


(** * Further properties *)

(** ** The rate limiter: keys, windows and restarts *)

Section RateLimiterMore.
Import RateLimiter.

(** The answer of a check depends on the state only through the window it
    loads. *)
Lemma result_from_load now k m w s s' :
  load now k w s = load now k w s' ->
  fst (checkRateLimit now k m w s) = fst (checkRateLimit now k m w s').
Proof. intros H. rewrite !checkRateLimit_unfold. cbn [fst]. by rewrite H. Qed.

Lemma stored_window_other now k k' m w s :
  k <> k' ->
  stored_window k' (snd (checkRateLimit now k m w s)) = stored_window k' s.
Proof.
  intros Hne. rewrite checkRateLimit_unfold. unfold stored_window.
  cbn [snd requests storage]. rewrite lookup_insert_ne by done.
  destruct (_ <? m); [rewrite lookup_insert_ne by done|]; reflexivity.
Qed.

(** X1.  A check or a reset of one key leaves the windows of every other
    key, in memory and in storage, as they were, and with them the answer
    of any later check of the other key. *)
Theorem other_keys_are_untouched (now : Z) (k k' : string) (m w : Z) (s : t) :
  k <> k' ->
  let s1 := snd (checkRateLimit now k m w s) in
  let s2 := reset k s in
  (requests s1 !! k' = requests s !! k' /\ storage s1 !! k' = storage s !! k') /\
  (requests s2 !! k' = requests s !! k' /\ storage s2 !! k' = storage s !! k') /\
  (forall now' m' w',
     fst (checkRateLimit now' k' m' w' s1) = fst (checkRateLimit now' k' m' w' s) /\
     fst (checkRateLimit now' k' m' w' s2) = fst (checkRateLimit now' k' m' w' s)).
Proof.
  intros Hne s1 s2. split; [|split].
  - unfold s1. rewrite checkRateLimit_unfold. cbn [snd requests storage].
    rewrite lookup_insert_ne by done.
    destruct (_ <? m); [rewrite lookup_insert_ne by done|]; done.
  - unfold s2, reset. cbn [requests storage]. by rewrite !lookup_delete_ne.
  - intros now' m' w'. split; apply result_from_load; unfold load.
    + unfold s1. by rewrite stored_window_other.
    + unfold s2, stored_window, reset. cbn [requests storage].
      by rewrite !lookup_delete_ne.
Qed.

(** X1: the theorem at a user and an address. *)
Lemma other_keys_are_untouched_witness :
  let s := snd (checkRateLimit 0 "ip:10.0.0.1" 100 60000 (new ∅)) in
  "user:7"%string <> "ip:10.0.0.1"%string /\
  let s1 := snd (checkRateLimit 5 "user:7" 50 300000 s) in
  let s2 := reset "user:7" s in
  (requests s1 !! "ip:10.0.0.1"%string = requests s !! "ip:10.0.0.1"%string /\
   storage s1 !! "ip:10.0.0.1"%string = storage s !! "ip:10.0.0.1"%string) /\
  (requests s2 !! "ip:10.0.0.1"%string = requests s !! "ip:10.0.0.1"%string /\
   storage s2 !! "ip:10.0.0.1"%string = storage s !! "ip:10.0.0.1"%string) /\
  (forall now' m' w',
     fst (checkRateLimit now' "ip:10.0.0.1" m' w' s1)
       = fst (checkRateLimit now' "ip:10.0.0.1" m' w' s) /\
     fst (checkRateLimit now' "ip:10.0.0.1" m' w' s2)
       = fst (checkRateLimit now' "ip:10.0.0.1" m' w' s)).
Proof.
  intros s.
  assert (H : "user:7"%string <> "ip:10.0.0.1"%string) by discriminate.
  split; [exact H|].
  exact (other_keys_are_untouched 5 "user:7" "ip:10.0.0.1" 50 300000 s H).
Defined.

(** *** A run of checks inside one window *)

Lemma expected_from_shift m R c i times :
  expected_from m R (c + 1) i times = expected_from m R c (S i) times.
Proof.
  revert i. induction times as [|t rest IH]; intros i; cbn [expected_from]; [done|].
  rewrite IH. f_equal. unfold expected.
  replace (c + 1 + Z.of_nat i) with (c + Z.of_nat (S i)) by lia. done.
Qed.

Lemma expected_full m R c i j now :
  m <= c -> expected m R c i now = expected m R c j now.
Proof.
  intros Hc. unfold expected.
  replace (c + Z.of_nat i <? m) with false by (symmetry; apply Z.ltb_ge; lia).
  replace (c + Z.of_nat j <? m) with false by (symmetry; apply Z.ltb_ge; lia).
  by rewrite !Z.max_l by lia.
Qed.

Lemma expected_from_full m R c i times :
  m <= c ->
  expected_from m R c i times = expected_from m R c (S i) times.
Proof.
  intros Hc. revert i. induction times as [|t rest IH]; intros i; cbn [expected_from]; [done|].
  f_equal; [by apply expected_full|apply IH].
Qed.

Lemma expected_from_length m R c i times :
  length (expected_from m R c i times) = length times.
Proof. revert i. induction times as [|a l IH]; intros i; cbn; [done|]. by rewrite IH. Qed.

Lemma expected_from_nth m R c times : forall i0 i r,
  nth_error (expected_from m R c i0 times) i = Some r ->
  exists now, nth_error times i = Some now /\ r = expected m R c (i0 + i) now.
Proof.
  induction times as [|a l IH]; intros i0 i r; cbn [expected_from].
  - by destruct i.
  - destruct i as [|i]; cbn [nth_error].
    + intros [= <-]. exists a. by rewrite Nat.add_0_r.
    + intros H. destruct (IH _ _ _ H) as (now & Hn & ->). exists now.
      split; [done|]. f_equal. lia.
Qed.

(** Checks before the end of the window in memory count on from its
    count. *)
Lemma checks_in_window k m w R times : forall c s,
  requests s !! k = Some {| count := c; resetTime := R |} ->
  Forall (fun now => now < R) times ->
  fst (checks k m w times s) = expected_from m R c 0 times.
Proof.
  induction times as [|now rest IH]; intros c s Hs Hts; [done|].
  inversion Hts as [|? ? Hnow Hrest]; subst.
  cbn [checks expected_from].
  pose proof (checkRateLimit_unfold now k m w s) as E. cbn zeta in E.
  assert (Hload : load now k w s = {| count := c; resetTime := R |}).
  { unfold load, stored_window. by rewrite Hs. }
  rewrite Hload in E. unfold expire in E. cbn [resetTime] in E.
  replace (now >=? R) with false in E by (symmetry; lia).
  unfold admit_one in E. cbn [count] in E.
  destruct (checkRateLimit now k m w s) as [r s1]. injection E as -> ->.
  destruct (c <? m) eqn:Hc; cbn [count resetTime].
  - specialize (IH (c + 1)
      {| requests := <[k:={| count := c + 1; resetTime := R |}]> (requests s);
         storage := <[k:={| count := c + 1; resetTime := R |}]> (storage s) |}).
    destruct (checks k m w rest _) as [rs s2]. cbn [fst] in *.
    rewrite IH; [|cbn; by rewrite lookup_insert_eq|done].
    rewrite expected_from_shift. f_equal. unfold expected.
    rewrite Z.add_0_r, Hc. f_equal. lia.
  - specialize (IH c
      {| requests := <[k:={| count := c; resetTime := R |}]> (requests s);
         storage := storage s |}).
    destruct (checks k m w rest _) as [rs s2]. cbn [fst] in *.
    rewrite IH; [|cbn; by rewrite lookup_insert_eq|done].
    rewrite <- expected_from_full by lia. f_equal. unfold expected.
    rewrite Z.add_0_r, Hc. f_equal. lia.
Qed.

Lemma checks_from_fresh (k : string) (m w t0 : Z) (rest : list Z) (s : t) :
  stored_window k s = None ->
  0 < w ->
  Forall (fun now => now < t0 + w) rest ->
  fst (checks k m w (t0 :: rest) s) = expected_from m (t0 + w) 0 0 (t0 :: rest).
Proof.
  intros Hs Hw Hrest. cbn [checks expected_from].
  pose proof (checkRateLimit_unfold t0 k m w s) as E. cbn zeta in E.
  assert (Hload : load t0 k w s = {| count := 0; resetTime := t0 + w |}).
  { unfold load. by rewrite Hs. }
  rewrite Hload in E. unfold expire in E. cbn [resetTime] in E.
  replace (t0 >=? t0 + w) with false in E by (symmetry; lia).
  unfold admit_one in E. cbn [count] in E.
  destruct (checkRateLimit t0 k m w s) as [r s1]. injection E as -> ->.
  destruct (0 <? m) eqn:Hm; cbn [count resetTime].
  - pose proof (checks_in_window k m w (t0 + w) rest (0 + 1)
      {| requests := <[k:={| count := 0 + 1; resetTime := t0 + w |}]> (requests s);
         storage := <[k:={| count := 0 + 1; resetTime := t0 + w |}]> (storage s) |}) as IH.
    destruct (checks k m w rest _) as [rs s2]. cbn [fst] in *.
    rewrite IH; [|cbn; by rewrite lookup_insert_eq|done].
    rewrite expected_from_shift. f_equal. unfold expected.
    rewrite Z.add_0_r, Hm. f_equal. lia.
  - pose proof (checks_in_window k m w (t0 + w) rest 0
      {| requests := <[k:={| count := 0; resetTime := t0 + w |}]> (requests s);
         storage := storage s |}) as IH.
    destruct (checks k m w rest _) as [rs s2]. cbn [fst] in *.
    rewrite IH; [|cbn; by rewrite lookup_insert_eq|done].
    rewrite <- expected_from_full by lia. f_equal. unfold expected.
    rewrite Z.add_0_r, Hm. f_equal. lia.
Qed.

(** X2.  For a key without a stored window and a positive window length,
    take a first check at [t0] and any number of further checks before
    [t0 + windowMs], all with the limit [m].  The check at position [i]
    (from [0]) is allowed exactly when [i < m]; it reports
    [max(0, m - i - 1)] remaining requests and the reset time
    [t0 + windowMs]. *)
Theorem window_admits_the_first_requests (k : string) (m w t0 : Z) (rest : list Z)
    (s : t) :
  stored_window k s = None ->
  0 < w ->
  Forall (fun now => now < t0 + w) rest ->
  let results := fst (checks k m w (t0 :: rest) s) in
  length results = S (length rest) /\
  forall i r, nth_error results i = Some r ->
    allowed r = (Z.of_nat i <? m) /\
    remaining r = Z.max 0 (m - Z.of_nat i - 1) /\
    result_resetTime r = t0 + w.
Proof.
  intros Hs Hw Hrest results. unfold results.
  rewrite checks_from_fresh by done. split.
  - by rewrite expected_from_length.
  - intros i r Hr. apply expected_from_nth in Hr as (now & _ & ->).
    unfold expected. cbn [allowed remaining result_resetTime]. by rewrite !Z.add_0_l.
Qed.

(** X2: the theorem at three checks of a user with the limit [2]. *)
Lemma window_admits_the_first_requests_witness :
  stored_window "user:7" (new ∅) = None /\
  0 < 1000 /\
  Forall (fun now => now < 0 + 1000) [10; 999] /\
  let results := fst (checks "user:7" 2 1000 (0 :: [10; 999]) (new ∅)) in
  length results = S (length [10; 999]) /\
  forall i r, nth_error results i = Some r ->
    allowed r = (Z.of_nat i <? 2) /\
    remaining r = Z.max 0 (2 - Z.of_nat i - 1) /\
    result_resetTime r = 0 + 1000.
Proof.
  assert (H1 : stored_window "user:7" (new ∅) = None) by reflexivity.
  assert (H2 : 0 < 1000) by lia.
  assert (H3 : Forall (fun now => now < 0 + 1000) [10; 999])
    by (repeat constructor; lia).
  split; [exact H1|]. split; [exact H2|]. split; [exact H3|].
  exact (window_admits_the_first_requests "user:7" 2 1000 0 [10; 999] (new ∅) H1 H2 H3).
Defined.

(** *** The result of a check *)

Lemma ceil_div_spec a n : ceil_div a 1000 = n -> 1000 * (n - 1) < a <= 1000 * n.
Proof.
  unfold ceil_div. intros <-.
  pose proof (Z.div_mod (- a) 1000 ltac:(lia)).
  pose proof (Z.mod_pos_bound (- a) 1000 ltac:(lia)). lia.
Qed.

(** X3.  With a positive window length, the reset time a check reports lies
    in the future and the remaining count is not negative.  An allowed check
    carries no [retryAfter]; a refused one reports [0] remaining requests and
    a [retryAfter] of at least one second: the time to the reset, rounded up
    to whole seconds. *)
Theorem result_tells_when_to_retry (now : Z) (k : string) (m w : Z) (s : t) :
  0 < w ->
  let r := fst (checkRateLimit now k m w s) in
  now < result_resetTime r /\
  0 <= remaining r /\
  (allowed r = true -> retryAfter r = None) /\
  (allowed r = false ->
     remaining r = 0 /\
     exists n, retryAfter r = Some n /\ 1 <= n /\
               1000 * (n - 1) < result_resetTime r - now <= 1000 * n).
Proof.
  intros Hw r. unfold r. rewrite checkRateLimit_unfold.
  cbn [fst allowed remaining result_resetTime retryAfter].
  set (c0 := load now k w s).
  assert (Hreset : now < resetTime (admit_one m (expire now w c0))).
  { unfold admit_one, expire.
    destruct (now >=? resetTime c0) eqn:E; cbn [count resetTime];
      destruct (_ <? m); cbn [resetTime]; lia. }
  split; [exact Hreset|]. split; [lia|]. split.
  - by intros ->.
  - intros Hno. rewrite Hno. split.
    + unfold admit_one. rewrite Hno. lia.
    + eexists. split; [reflexivity|].
      pose proof (ceil_div_spec _ _ eq_refl
        : 1000 * (ceil_div (resetTime (admit_one m (expire now w c0)) - now) 1000 - 1)
          < resetTime (admit_one m (expire now w c0)) - now
          <= 1000 * ceil_div (resetTime (admit_one m (expire now w c0)) - now) 1000).
      lia.
Qed.

(** X3: the theorem at the second of two checks with the limit [1]. *)
Lemma result_tells_when_to_retry_witness :
  0 < 60000 /\
  let r := fst (checkRateLimit 10 "facebook:feed" 1 60000
                  (snd (checkRateLimit 0 "facebook:feed" 1 60000 (new ∅)))) in
  10 < result_resetTime r /\
  0 <= remaining r /\
  (allowed r = true -> retryAfter r = None) /\
  (allowed r = false ->
     remaining r = 0 /\
     exists n, retryAfter r = Some n /\ 1 <= n /\
               1000 * (n - 1) < result_resetTime r - 10 <= 1000 * n).
Proof.
  assert (H : 0 < 60000) by lia. split; [exact H|].
  exact (result_tells_when_to_retry 10 "facebook:feed" 1 60000 _ H).
Defined.

(** *** Restarts *)

(** X4.  An allowed check leaves the same window in memory and in storage,
    so a restart of the object right after it changes the answer of no
    later check of the key. *)
Theorem admitted_request_survives_restart (now : Z) (k : string) (m w : Z) (s : t) :
  allowed (fst (checkRateLimit now k m w s)) = true ->
  let s1 := snd (checkRateLimit now k m w s) in
  requests s1 !! k = storage s1 !! k /\
  forall now' m' w',
    fst (checkRateLimit now' k m' w' (step s1 OpRestart))
    = fst (checkRateLimit now' k m' w' s1).
Proof.
  rewrite checkRateLimit_unfold. cbn [fst snd allowed]. intros Hyes. rewrite Hyes.
  cbn [requests storage]. rewrite !lookup_insert_eq. split; [done|].
  intros now' m' w'. apply result_from_load.
  unfold load, stored_window, step, new. cbn [requests storage].
  by rewrite lookup_empty, !lookup_insert_eq.
Qed.

(** X4: the theorem at the first check of a key. *)
Lemma admitted_request_survives_restart_witness :
  allowed (fst (checkRateLimit 0 "api:abc" 1000 3600000 (new ∅))) = true /\
  let s1 := snd (checkRateLimit 0 "api:abc" 1000 3600000 (new ∅)) in
  requests s1 !! "api:abc"%string = storage s1 !! "api:abc"%string /\
  forall now' m' w',
    fst (checkRateLimit now' "api:abc" m' w' (step s1 OpRestart))
    = fst (checkRateLimit now' "api:abc" m' w' s1).
Proof.
  assert (H : allowed (fst (checkRateLimit 0 "api:abc" 1000 3600000 (new ∅))) = true)
    by reflexivity.
  split; [exact H|].
  exact (admitted_request_survives_restart 0 "api:abc" 1000 3600000 (new ∅) H).
Defined.

(** *** Routing *)

Lemma last_segment_from_plain acc seg :
  ~ In "/"%char (Js.chars seg) -> last_segment_from acc seg = acc +:+ seg.
Proof.
  revert acc. induction seg as [|c seg IH]; intros acc Hno; cbn [last_segment_from].
  - induction acc as [|a acc IHa]; [done|].
    change (String a acc = String a (acc +:+ "")). by rewrite <- IHa.
  - destruct (Ascii.eqb_spec c "/"%char) as [->|Hc]; [exfalso; apply Hno; by left|].
    rewrite IH by (intros H; apply Hno; by right).
    clear. induction acc as [|a acc IHa]; [done|].
    change (String a ((acc +:+ String c "") +:+ seg) = String a (acc +:+ String c seg)).
    by rewrite IHa.
Qed.

Lemma last_segment_from_path acc prefix seg :
  ~ In "/"%char (Js.chars seg) ->
  last_segment_from acc (prefix +:+ "/" +:+ seg) = seg.
Proof.
  intros Hno. revert acc. induction prefix as [|c prefix IH]; intros acc.
  - change (last_segment_from acc (String "/" seg) = seg). cbn [last_segment_from].
    rewrite Ascii.eqb_refl. by rewrite last_segment_from_plain.
  - change (last_segment_from acc (String c (prefix +:+ "/" +:+ seg)) = seg).
    cbn [last_segment_from]. destruct (Ascii.eqb c "/"); apply IH.
Qed.

(** X5.  [fetch] looks at nothing but the last segment of the path: a path
    that ends in [/check] is a check and one that ends in [/reset] a reset,
    whatever precedes; every other last segment is answered with status 404
    and leaves the object as it was. *)
Theorem fetch_routes_on_last_segment (now : Z) (prefix seg : string) (b : Body) (s : t) :
  ~ In "/"%char (Js.chars seg) ->
  let request := {| pathname := prefix +:+ "/" +:+ seg; body := b |} in
  fetch now request s =
    if String.eqb seg "check" then handleCheck now request s
    else if String.eqb seg "reset" then handleReset request s
    else ({| status := 404; response_body := TextBody "Not Found" |}, s).
Proof.
  intros Hno request. unfold fetch, last_segment. cbn [pathname request].
  by rewrite last_segment_from_path.
Qed.

(** X5: the theorem at a path of the dashboard. *)
Lemma fetch_routes_on_last_segment_witness :
  let b := {| key := "k"; maxRequests := 1; windowMs := 1000 |} in
  ~ In "/"%char (Js.chars "status") /\
  let request := {| pathname := "https://rate-limiter/api" +:+ "/" +:+ "status";
                    body := b |} in
  fetch 0 request (new ∅) =
    if String.eqb "status" "check" then handleCheck 0 request (new ∅)
    else if String.eqb "status" "reset" then handleReset request (new ∅)
    else ({| status := 404; response_body := TextBody "Not Found" |}, new ∅).
Proof.
  intros b.
  assert (H : ~ In "/"%char (Js.chars "status")).
  { cbn. intros H. repeat (destruct H as [H|H]; [discriminate|]). exact H. }
  split; [exact H|].
  exact (fetch_routes_on_last_segment 0 "https://rate-limiter/api" "status" b (new ∅) H).
Defined.

End RateLimiterMore.

(** ** Strings *)

Section JsStringFacts.

Lemma before_comma_no_comma s : ~ In ","%char (Js.chars (Js.before_comma s)).
Proof.
  induction s as [|c s IH]; cbn; [tauto|].
  destruct (Ascii.eqb_spec c ","%char) as [->|Hc]; cbn; [tauto|].
  intros [H|H]; [congruence|tauto].
Qed.

Lemma trimStart_chars s c : In c (Js.chars (Js.trimStart s)) -> In c (Js.chars s).
Proof.
  induction s as [|a s IH]; cbn; [tauto|].
  destruct (Js.is_space a); cbn; tauto.
Qed.

Lemma trimEnd_chars s c : In c (Js.chars (Js.trimEnd s)) -> In c (Js.chars s).
Proof.
  induction s as [|a s IH]; cbn; [tauto|].
  destruct (Js.is_space a && String.eqb (Js.trimEnd s) ""); cbn; tauto.
Qed.

Lemma trim_chars s c : In c (Js.chars (Js.trim s)) -> In c (Js.chars s).
Proof. unfold Js.trim. intros H. by apply trimStart_chars, trimEnd_chars. Qed.

Lemma trimEnd_idem s : Js.trimEnd (Js.trimEnd s) = Js.trimEnd s.
Proof.
  induction s as [|a s IH]; cbn; [done|].
  destruct (Js.is_space a) eqn:Ha; cbn [andb].
  - destruct (String.eqb_spec (Js.trimEnd s) "") as [E|E]; cbn; [done|].
    rewrite IH, Ha. cbn. by destruct (String.eqb_spec (Js.trimEnd s) "").
  - cbn. by rewrite IH, Ha.
Qed.

Lemma trimStart_fixed s :
  match s with String a _ => Js.is_space a = false | EmptyString => True end ->
  Js.trimStart s = s.
Proof. destruct s as [|a s]; cbn; [done|]. by intros ->. Qed.

Lemma trimStart_head s :
  match Js.trimStart s with String a _ => Js.is_space a = false | EmptyString => True end.
Proof.
  induction s as [|a s IH]; cbn; [done|].
  destruct (Js.is_space a) eqn:Ha; [exact IH|exact Ha].
Qed.

Lemma trimEnd_head s :
  match s with String a _ => Js.is_space a = false | EmptyString => True end ->
  match Js.trimEnd s with String a _ => Js.is_space a = false | EmptyString => True end.
Proof.
  destruct s as [|a s]; cbn; [done|]. intros Ha. by rewrite Ha.
Qed.

Lemma trim_idem s : Js.trim (Js.trim s) = Js.trim s.
Proof.
  unfold Js.trim.
  rewrite (trimStart_fixed (Js.trimEnd (Js.trimStart s))).
  - apply trimEnd_idem.
  - apply trimEnd_head, trimStart_head.
Qed.

Lemma append_assoc (a b c : string) : (a +:+ b) +:+ c = a +:+ (b +:+ c).
Proof.
  induction a as [|x a IH]; [done|].
  change (String x ((a +:+ b) +:+ c) = String x (a +:+ (b +:+ c))). by rewrite IH.
Qed.

End JsStringFacts.

(** ** The methods of the rate limit service *)

Section MethodsFacts.
Import RateLimitMethods.

Lemma firstClientIP_skip pre rest h :
  Forall (fun name => no_value name h) pre ->
  firstClientIP (pre ++ rest) h = firstClientIP rest h.
Proof.
  induction 1 as [|name pre [Hn|Hn] Hpre IH]; cbn [app firstClientIP]; [done| |];
    rewrite Hn; [exact IH|]. cbn. exact IH.
Qed.

Lemma firstClientIP_shape names h :
  firstClientIP names h = "unknown"%string \/
  exists ip, firstClientIP names h = Js.trim (Js.before_comma ip).
Proof.
  induction names as [|name names IH]; cbn [firstClientIP]; [by left|].
  destruct (headers_get name h) as [ip|]; [|exact IH].
  destruct (String.eqb ip ""); [exact IH|]. right. by exists ip.
Qed.

(** X6.  [getClientIP] reads the four headers in the order
    [CF-Connecting-IP], [X-Forwarded-For], [X-Real-IP], [X-Client-IP]: the
    first of them that is present and not empty decides, whatever the later
    ones hold, and the address is what precedes its first comma, without
    the white space around it. *)
Theorem client_address_selection (h : gmap string string)
    (pre : list string) (name : string) (post : list string) (ip : string) :
  clientIPHeaders = pre ++ name :: post ->
  Forall (fun name => no_value name h) pre ->
  headers_get name h = Some ip ->
  ip <> ""%string ->
  getClientIP h = Js.trim (Js.before_comma ip).
Proof.
  intros E Hpre Hget Hne. unfold getClientIP. rewrite E.
  rewrite firstClientIP_skip by done. cbn [firstClientIP]. rewrite Hget.
  by destruct (String.eqb_spec ip "").
Qed.

(** X6: the theorem at a request that came through a proxy. *)
Lemma client_address_selection_witness :
  clientIPHeaders = ["CF-Connecting-IP"%string] ++ "X-Forwarded-For"%string
                      :: ["X-Real-IP"; "X-Client-IP"]%string /\
  Forall (fun name => no_value name Scenarios.proxied) ["CF-Connecting-IP"%string] /\
  headers_get "X-Forwarded-For" Scenarios.proxied = Some "203.0.113.7, 10.0.0.1"%string /\
  "203.0.113.7, 10.0.0.1"%string <> ""%string /\
  getClientIP Scenarios.proxied = Js.trim (Js.before_comma "203.0.113.7, 10.0.0.1").
Proof.
  assert (H1 : clientIPHeaders = ["CF-Connecting-IP"%string] ++ "X-Forwarded-For"%string
                                   :: ["X-Real-IP"; "X-Client-IP"]%string) by reflexivity.
  assert (H2 : Forall (fun name => no_value name Scenarios.proxied)
                 ["CF-Connecting-IP"%string]).
  { constructor; [|constructor]. left. reflexivity. }
  assert (H3 : headers_get "X-Forwarded-For" Scenarios.proxied
               = Some "203.0.113.7, 10.0.0.1"%string) by reflexivity.
  assert (H4 : "203.0.113.7, 10.0.0.1"%string <> ""%string) by discriminate.
  split; [exact H1|]. split; [exact H2|]. split; [exact H3|]. split; [exact H4|].
  exact (client_address_selection Scenarios.proxied _ _ _ _ H1 H2 H3 H4).
Defined.

(** X7.  Whatever the headers hold, the address of [getClientIP] contains
    no comma and has no white space at either end: trimming it again
    changes nothing.  When none of the four headers has a value it is
    [unknown]. *)
Theorem client_address_is_one_trimmed_field (h : gmap string string) :
  ~ In ","%char (Js.chars (getClientIP h)) /\
  Js.trim (getClientIP h) = getClientIP h /\
  (Forall (fun name => no_value name h) clientIPHeaders ->
   getClientIP h = "unknown"%string).
Proof.
  unfold getClientIP. split; [|split].
  - destruct (firstClientIP_shape clientIPHeaders h) as [->|[ip ->]].
    + cbn. intros H. repeat (destruct H as [H|H]; [discriminate|]). exact H.
    + intros H. apply trim_chars in H. by apply before_comma_no_comma in H.
  - destruct (firstClientIP_shape clientIPHeaders h) as [->|[ip ->]];
      [reflexivity|apply trim_idem].
  - intros H. rewrite <- (app_nil_r clientIPHeaders). by rewrite firstClientIP_skip.
Qed.

Lemma prefixes_disjoint p q a b :
  In p key_prefixes -> In q key_prefixes -> p <> q -> p +:+ a <> q +:+ b.
Proof.
  unfold key_prefixes. cbn [In]. intros Hp Hq Hne.
  repeat (destruct Hp as [<-|Hp]); try contradiction;
    repeat (destruct Hq as [<-|Hq]); try contradiction;
    try (exfalso; apply Hne; reflexivity); cbn; discriminate.
Qed.

(** X8.  The keys of two different methods never coincide, whatever the
    address, hash, user, provider, endpoint or type they are built from: a
    check through one method leaves the window of every key of another
    method as it was. *)
Theorem methods_do_not_share_windows (p q a b : string) (clock now : Z)
    (cfg : RateLimitService.RateLimitConfig) (s : RateLimiter.t) :
  In p key_prefixes -> In q key_prefixes -> p <> q ->
  p +:+ a <> q +:+ b /\
  RateLimiter.stored_window (q +:+ b)
    (snd (RateLimitService.checkRateLimit (RateLimitService.reachable clock)
            now (p +:+ a) cfg s))
  = RateLimiter.stored_window (q +:+ b) s.
Proof.
  intros Hp Hq Hne. pose proof (prefixes_disjoint p q a b Hp Hq Hne) as Hk.
  split; [exact Hk|]. rewrite check_reaches_object.
  pose proof (stored_window_other clock (p +:+ a) (q +:+ b)
                (RateLimitService.maxRequests cfg) (RateLimitService.windowMs cfg) s Hk) as H.
  by destruct (RateLimiter.checkRateLimit _ _ _ _ _).
Qed.

(** X8: the theorem at a user and an address that carry the same text. *)
Lemma methods_do_not_share_windows_witness :
  In "user:"%string key_prefixes /\ In "ip:"%string key_prefixes /\
  "user:"%string <> "ip:"%string /\
  "user:" +:+ "10.0.0.1" <> "ip:" +:+ "10.0.0.1" /\
  RateLimiter.stored_window ("ip:" +:+ "10.0.0.1")
    (snd (RateLimitService.checkRateLimit (RateLimitService.reachable 5)
            5 ("user:" +:+ "10.0.0.1") (config 50 300000) (RateLimiter.new ∅)))
  = RateLimiter.stored_window ("ip:" +:+ "10.0.0.1") (RateLimiter.new ∅).
Proof.
  assert (H1 : In "user:"%string key_prefixes) by (cbn; tauto).
  assert (H2 : In "ip:"%string key_prefixes) by (cbn; tauto).
  assert (H3 : "user:"%string <> "ip:"%string) by discriminate.
  split; [exact H1|]. split; [exact H2|]. split; [exact H3|].
  exact (methods_do_not_share_windows "user:" "ip:" "10.0.0.1" "10.0.0.1" 5 5
           (config 50 300000) (RateLimiter.new ∅) H1 H2 H3).
Defined.

(** X9.  The key of [checkAIProviderRateLimit] joins the provider and the
    model with a colon and escapes neither: a provider [p:x] with the model
    [m] and the provider [p] with the model [x:m] are checked against the
    same key, with the same result and the same state after it. *)
Theorem provider_and_model_can_share_a_window {W : Type}
    (RATE_LIMITER : string -> RateLimiter.Request -> W -> Outcome RateLimiter.Response * W)
    (now : Z) (provider x model : string) (maxRequests windowMs : option Z) (w : W) :
  checkAIProviderRateLimit RATE_LIMITER now (provider +:+ ":" +:+ x) model
    maxRequests windowMs w
  = checkAIProviderRateLimit RATE_LIMITER now provider (x +:+ ":" +:+ model)
      maxRequests windowMs w.
Proof.
  unfold checkAIProviderRateLimit. by rewrite !append_assoc.
Qed.

(** *** Headers *)

Lemma get_set_eq name value h : headers_get name (headers_set name value h) = Some value.
Proof. unfold headers_get, headers_set. apply lookup_insert_eq. Qed.

Lemma get_set_ne name name' value h :
  Js.toLowerCase name' <> Js.toLowerCase name ->
  headers_get name (headers_set name' value h) = headers_get name h.
Proof. intros H. unfold headers_get, headers_set. by apply lookup_insert_ne. Qed.

Lemma get_append_ne name name' value h :
  Js.toLowerCase name' <> Js.toLowerCase name ->
  headers_get name (headers_append name' value h) = headers_get name h.
Proof.
  intros H. unfold headers_get, headers_append.
  destruct (h !! Js.toLowerCase name'); by apply lookup_insert_ne.
Qed.

Ltac headers :=
  repeat first
    [ rewrite get_set_eq
    | rewrite get_set_ne by (vm_compute; discriminate)
    | rewrite get_append_ne by (vm_compute; discriminate) ].

(** X10.  The response of [createRateLimitResponse] always carries
    [X-RateLimit-Remaining] and [X-RateLimit-Reset] of the result, and an
    [X-RateLimit-Limit] that is the remaining count too, not the limit.  A
    refused result gives status 429 and a [Retry-After] of the result's
    [retryAfter], or of 60 when that is absent or [0]; an allowed one keeps
    the status and the [Retry-After] of the original response, or is a 200
    without [Retry-After] when there is none. *)
Theorem rate_limit_response (result : RateLimiter.RateLimitResult)
    (original : option HttpResponse) :
  let r := createRateLimitResponse result original in
  let get name := headers_get name (http_headers r) in
  get "X-RateLimit-Limit"%string = Some (Js.toString (RateLimiter.remaining result)) /\
  get "X-RateLimit-Remaining"%string = Some (Js.toString (RateLimiter.remaining result)) /\
  get "X-RateLimit-Reset"%string = Some (Js.toString (RateLimiter.result_resetTime result)) /\
  (RateLimiter.allowed result = false ->
     http_status r = 429 /\
     get "Retry-After"%string =
       Some (Js.toString match RateLimiter.retryAfter result with
                         | Some 0 | None => 60
                         | Some n => n
                         end)) /\
  (RateLimiter.allowed result = true ->
     http_status r = match original with Some o => http_status o | None => 200 end /\
     get "Retry-After"%string =
       match original with
       | Some o => headers_get "Retry-After" (http_headers o)
       | None => None
       end).
Proof.
  intros r get. subst get r. cbn beta. unfold createRateLimitResponse.
  assert (Hret : match RateLimiter.retryAfter result with
                 | Some 0 | None => 60
                 | Some n => n
                 end = retryAfter_or_60 result).
  { unfold retryAfter_or_60. by destruct (RateLimiter.retryAfter result) as [[| |]|]. }
  rewrite Hret.
  destruct (RateLimiter.allowed result); cbn [negb];
    [destruct original as [o|];
     [|destruct (headers_get "Content-Type" _)]|];
    cbn [http_headers http_status]; headers;
    repeat split; try discriminate; try reflexivity.
Qed.

(** *** Resets *)

(** X11.  [resetRateLimit] on a reachable object answers [true] and leaves
    the object as a reset of the key does; the next check of the key through
    the service, with a limit of at least one, is allowed and reports one
    request less than the limit. *)
Theorem reset_through_the_service (clock clock' now : Z) (key : string)
    (cfg : RateLimitService.RateLimitConfig) (s : RateLimiter.t) :
  1 <= RateLimitService.maxRequests cfg ->
  let '(done, s1) := resetRateLimit (RateLimitService.reachable clock) key s in
  done = Some true /\ s1 = RateLimiter.reset key s /\
  exists r,
    fst (RateLimitService.checkRateLimit (RateLimitService.reachable clock')
           now key cfg s1) = RateLimiter.JResult r /\
    RateLimiter.allowed r = true /\
    RateLimiter.remaining r = RateLimitService.maxRequests cfg - 1.
Proof.
  intros Hm. unfold resetRateLimit, RateLimitService.reachable, reset_request.
  rewrite fetch_reset. unfold RateLimiter.handleReset.
  cbn [RateLimiter.body RateLimiter.key bind try_catch RateLimiter.json
       RateLimiter.response_body success_of].
  split; [done|]. split; [done|].
  fold (RateLimitService.reachable clock').
  rewrite check_reaches_object.
  pose proof (check_after_reset clock' key (RateLimitService.maxRequests cfg)
                (RateLimitService.windowMs cfg) s Hm) as H.
  cbn zeta in H.
  destruct (RateLimiter.checkRateLimit _ _ _ _ _) as [r s2]. cbn [fst] in *.
  by exists r.
Qed.

(** X11: the theorem at a key that has used up its limit. *)
Lemma reset_through_the_service_witness :
  let s := snd (RateLimiter.checkRateLimit 0 "user:7" 1 300000 (RateLimiter.new ∅)) in
  1 <= RateLimitService.maxRequests (config 1 300000) /\
  let '(done, s1) := resetRateLimit (RateLimitService.reachable 10) "user:7" s in
  done = Some true /\ s1 = RateLimiter.reset "user:7" s /\
  exists r,
    fst (RateLimitService.checkRateLimit (RateLimitService.reachable 20)
           20 "user:7" (config 1 300000) s1) = RateLimiter.JResult r /\
    RateLimiter.allowed r = true /\
    RateLimiter.remaining r = RateLimitService.maxRequests (config 1 300000) - 1.
Proof.
  intros s.
  assert (H : 1 <= RateLimitService.maxRequests (config 1 300000)) by (cbn; lia).
  split; [exact H|].
  exact (reset_through_the_service 10 20 20 "user:7" (config 1 300000) s H).
Defined.

(** X12.  [resetRateLimit] reports a failure instead of raising one: when
    the call of the object throws, or when its response is not JSON, the
    answer is [false], and the state is the one the call left. *)
Theorem reset_reports_failure {W : Type}
    (RATE_LIMITER : string -> RateLimiter.Request -> W -> Outcome RateLimiter.Response * W)
    (key : string) (w : W) :
  (exists e, fst (RATE_LIMITER "global"%string (reset_request key) w) = Throw e) \/
  (exists r t, fst (RATE_LIMITER "global"%string (reset_request key) w) = Ok r /\
               RateLimiter.response_body r = RateLimiter.TextBody t) ->
  resetRateLimit RATE_LIMITER key w
  = (Some false, snd (RATE_LIMITER "global"%string (reset_request key) w)).
Proof.
  unfold resetRateLimit.
  destruct (RATE_LIMITER "global"%string (reset_request key) w) as [o w'].
  cbn [fst snd]. intros [[e ->]|(r & t & -> & Hr)]; [reflexivity|].
  cbn [bind]. unfold RateLimiter.json. by rewrite Hr.
Qed.

(** X12: the theorem at an object that cannot be reached. *)
Lemma reset_reports_failure_witness :
  ((exists e, fst (RateLimitService.unreachable "global"%string (reset_request "user:7")
                     (RateLimiter.new ∅)) = Throw e) \/
   (exists r t, fst (RateLimitService.unreachable "global"%string (reset_request "user:7")
                       (RateLimiter.new ∅)) = Ok r /\
                RateLimiter.response_body r = RateLimiter.TextBody t)) /\
  resetRateLimit RateLimitService.unreachable "user:7" (RateLimiter.new ∅)
  = (Some false,
     snd (RateLimitService.unreachable "global"%string (reset_request "user:7")
            (RateLimiter.new ∅))).
Proof.
  assert (H : (exists e, fst (RateLimitService.unreachable "global"%string
                                (reset_request "user:7") (RateLimiter.new ∅)) = Throw e) \/
              (exists r t, fst (RateLimitService.unreachable "global"%string
                                  (reset_request "user:7") (RateLimiter.new ∅)) = Ok r /\
                           RateLimiter.response_body r = RateLimiter.TextBody t)).
  { left. eexists. reflexivity. }
  split; [exact H|].
  exact (reset_reports_failure RateLimitService.unreachable "user:7" (RateLimiter.new ∅) H).
Defined.

End MethodsFacts.

(** ** Sorting with a comparison function *)

Section SortFacts.
Context {A : Type}.
Variable compareFn : A -> A -> Q.
Variable R : A -> A -> Prop.
Hypothesis first_stays : forall a b, Qle_bool (compareFn a b) 0 = true -> R a b.
Hypothesis second_moves : forall a b, Qle_bool (compareFn a b) 0 = false -> R b a.

Lemma insert_Sorted_by x l : Sorted R l -> Sorted R (Js.insert compareFn x l).
Proof.
  induction 1 as [|y ys Hys IH Hhd]; cbn [Js.insert]; [by repeat constructor|].
  destruct (Qle_bool (compareFn x y) 0) eqn:E.
  - constructor; [by constructor|]. constructor. by apply first_stays.
  - constructor; [exact IH|].
    destruct ys as [|z zs]; cbn [Js.insert]; [constructor; by apply second_moves|].
    destruct (Qle_bool (compareFn x z) 0); constructor;
      [by apply second_moves|by inversion Hhd].
Qed.

Lemma sort_Sorted_by l : Sorted R (Js.sort compareFn l).
Proof.
  induction l as [|x l IH]; cbn [Js.sort fold_right]; [constructor|].
  by apply insert_Sorted_by.
Qed.
End SortFacts.

(** ** Content discovery: filtering, the sources and trending content *)

Section DiscoveryMore.
Import Discovery.
Local Open Scope Q_scope.

Lemma Qlt_bool_false a b : Qlt_bool a b = false <-> b <= a.
Proof.
  unfold Qlt_bool. rewrite negb_false_iff. apply Qle_bool_iff.
Qed.

Lemma filter_test_passes now minQuality maxAge item :
  (if Qlt_bool (quality item) minQuality then false
   else if (maxAge <? now - createdAt item)%Z then false
   else if match contentType item with text => true | _ => false end
           && negb (truthy (imageUrl item)) then false
   else true) = true <-> passes now minQuality maxAge item.
Proof.
  unfold passes.
  destruct (Qlt_bool (quality item) minQuality) eqn:Hq.
  - split; [discriminate|]. intros [H _]. apply Qlt_bool_false in H. congruence.
  - apply Qlt_bool_false in Hq.
    destruct (Z.ltb_spec maxAge (now - createdAt item)).
    + split; [discriminate|]. intros (_ & H' & _). lia.
    + destruct (contentType item), (truthy (imageUrl item)); cbn;
        split; try discriminate; try (intros _; repeat split; (done || lia)).
      intros (_ & _ & H'). by specialize (H' eq_refl).
Qed.

(** X13.  [filterContent] keeps exactly the items whose quality is at
    least the minimum (0.3 when none is given), whose age is at most the
    maximum (seven days when none is given) and which, when they are text,
    have an image.  Filtering the result again changes nothing, and the
    result is never longer than the input. *)
Theorem filterContent_keeps_what_passes (now : Z) (content : list DiscoveredContent)
    (minQuality : option Q) (maxAge : option Z) :
  let kept := filterContent now content minQuality maxAge in
  (forall item,
     In item kept <->
     In item content /\
     passes now (default (3 # 10) minQuality)
                (default (7 * 24 * 60 * 60 * 1000)%Z maxAge) item) /\
  filterContent now kept minQuality maxAge = kept /\
  (length kept <= length content)%nat.
Proof.
  intros kept. unfold kept, filterContent. split; [|split].
  - intros item. rewrite filter_In. by rewrite filter_test_passes.
  - induction content as [|x l IH]; cbn [List.filter]; [done|].
    match goal with |- context [if ?b then x :: _ else _] => destruct b eqn:E end;
      [|exact IH].
    cbn [List.filter]. rewrite E. by f_equal.
  - apply List.filter_length_le.
Qed.

Lemma parsed_text_has_no_image now sub post :
  contentType (to_content now sub post) = text ->
  imageUrl (to_content now sub post) = None.
Proof.
  cbn [to_content contentType imageUrl].
  destruct (is_video post); [discriminate|].
  destruct (is_image_url (url post) || (0 <? length (preview post))%nat); [discriminate|].
  done.
Qed.

Lemma news_loop_items api now limit : forall keywords acc item,
  (forall x, In x acc ->
     exists keyword article, x = news_content now keyword article /\
                             isRelevantNewsArticle article = true) ->
  forall out, news_loop api now limit keywords acc = Ok out -> In item out ->
  exists keyword article, item = news_content now keyword article /\
                          isRelevantNewsArticle article = true.
Proof.
  induction keywords as [|kw rest IH]; intros acc item Hacc out Hout Hin; cbn in Hout.
  - injection Hout as <-. by apply Hacc.
  - destruct (api kw (ceil_div limit 2)) as [resp|e]; cbn in Hout; [|discriminate].
    destruct (ok resp); cbn in Hout; [|by eapply IH].
    destruct (articles resp) as [data|e]; cbn in Hout; [|discriminate].
    eapply IH; [|exact Hout|exact Hin].
    intros x Hx. apply in_app_or in Hx as [Hx|Hx]; [by apply Hacc|].
    apply in_map_iff in Hx as (article & <- & Ha). apply filter_In in Ha as [_ Ha].
    by exists kw, article.
Qed.

Lemma discoverFromNews_items api now limit item :
  In item (discoverFromNews api now limit) ->
  exists keyword article, item = news_content now keyword article /\
                          isRelevantNewsArticle article = true.
Proof.
  unfold discoverFromNews.
  destruct (news_loop api now limit (firstn 2 newsKeywords) []) as [out|e] eqn:E;
    cbn; [|tauto].
  intros Hin. apply slice0_In in Hin.
  eapply news_loop_items; [|exact E|exact Hin]. intros x [].
Qed.

Lemma reddit_loop_items cache api now limit : forall subs acc item,
  (forall x, In x acc ->
     exists sub post, x = to_content now sub post /\ keep_post post = true) ->
  In item (reddit_loop cache api now limit subs acc) ->
  exists sub post, item = to_content now sub post /\ keep_post post = true.
Proof.
  assert (Hparse : forall posts sub x, In x (parseRedditContent now posts sub) ->
            exists sub post, x = to_content now sub post /\ keep_post post = true).
  { intros posts sub x Hx. apply in_map_iff in Hx as (post & <- & Hp).
    apply filter_In in Hp as [_ Hp]. by exists sub, post. }
  induction subs as [|sub rest IH]; intros acc item Hacc Hin; cbn [reddit_loop] in Hin.
  - by apply Hacc.
  - destruct (cache sub) as [posts|].
    + eapply IH; [|exact Hin].
      intros x Hx. apply in_app_or in Hx as [Hx|Hx]; [by apply Hacc|by eapply Hparse].
    + destruct (api sub _) as [posts|].
      * eapply IH; [|exact Hin].
        intros x Hx. apply in_app_or in Hx as [Hx|Hx]; [by apply Hacc|by eapply Hparse].
      * by eapply IH.
Qed.

Lemma discoverFromReddit_items cache api now limit item :
  In item (discoverFromReddit cache api now limit) ->
  exists sub post, item = to_content now sub post /\ keep_post post = true.
Proof.
  unfold discoverFromReddit. intros Hin. apply slice0_In in Hin.
  eapply reddit_loop_items; [|exact Hin]. intros x [].
Qed.

(** X14.  After the sources: [filterContent] drops every text item that
    [discoverFromReddit] returns, since those carry no image; and with the
    default minimum quality it drops an item of [discoverFromNews] for its
    age alone, since news items have a quality of at least 0.5 and are
    links. *)
Theorem filter_after_the_sources (now now' : Z) (limit : Z)
    (cache : string -> option (list RedditPost))
    (reddit_api : string -> Z -> option (list RedditPost))
    (news_api : string -> Z -> Outcome NewsResponse)
    (minQuality : option Q) (maxAge : option Z) :
  (forall item,
     In item (filterContent now' (discoverFromReddit cache reddit_api now limit)
                minQuality maxAge) ->
     contentType item <> text) /\
  filterContent now' (discoverFromNews news_api now limit) None maxAge
  = List.filter (fun item => negb (default (7 * 24 * 60 * 60 * 1000)%Z maxAge
                                   <? now' - createdAt item)%Z)
                (discoverFromNews news_api now limit).
Proof.
  split.
  - intros item Hin. unfold filterContent in Hin. apply filter_In in Hin as [Hin Ht].
    apply filter_test_passes in Ht as (_ & _ & Ht).
    apply discoverFromReddit_items in Hin as (sub & post & -> & _).
    intros Htext. specialize (Ht Htext).
    by rewrite (parsed_text_has_no_image _ _ _ Htext) in Ht.
  - unfold filterContent. apply filter_ext_in. intros item Hin.
    apply discoverFromNews_items in Hin as (kw & article & -> & _).
    cbn [quality contentType news_content default].
    pose proof (news_quality_bounds now article) as [Hq _].
    replace (Qlt_bool (calculateNewsQuality now article) (3 # 10)) with false
      by (symmetry; apply Qlt_bool_false; lra).
    cbn [andb]. by destruct (_ <? _)%Z.
Qed.
(** X15.  [discoverFromReddit] returns at most [limit] items (for a limit
    that is not negative), and each of them is built from a post that is not
    marked [over_18] and has a score above 10; its source is [reddit] and
    its quality lies between 0 and 1. *)
Theorem reddit_items_come_from_kept_posts (now limit : Z)
    (cache : string -> option (list RedditPost))
    (api : string -> Z -> option (list RedditPost)) :
  let items := discoverFromReddit cache api now limit in
  ((0 <= limit)%Z -> (Z.of_nat (length items) <= limit)%Z) /\
  (forall item, In item items ->
     exists sub post,
       item = to_content now sub post /\
       over_18 post = false /\ (10 < post_score post)%Z /\
       source item = reddit /\ 0 <= quality item <= 1).
Proof.
  intros items. split.
  - intros Hl. unfold items, discoverFromReddit. by apply slice0_length.
  - intros item Hin. apply discoverFromReddit_items in Hin as (sub & post & -> & Hk).
    exists sub, post. pose proof (keep_post_score post Hk) as Hs.
    unfold keep_post in Hk. apply andb_prop in Hk as [Hk _].
    apply andb_prop in Hk as [Hk _]. apply negb_true_iff in Hk.
    repeat split; try done; cbn [quality to_content].
    + apply reddit_quality_lower. lia.
    + apply reddit_quality_upper.
Qed.

(** The loop as one pass over the subreddits: each contributes the items
    of its cached posts, or else of its fetched posts, or else nothing. *)
Lemma reddit_loop_flat_map cache api now limit subs discovered :
  reddit_loop cache api now limit subs discovered
  = discovered ++
    flat_map (fun sub =>
                match cache sub with
                | Some posts => parseRedditContent now posts sub
                | None =>
                    match api sub (ceil_div limit (Z.of_nat (length subreddits))) with
                    | Some posts => parseRedditContent now posts sub
                    | None => []
                    end
                end) subs.
Proof.
  revert discovered. induction subs as [|sub rest IH]; intros discovered;
    cbn [reddit_loop flat_map]; [by rewrite app_nil_r|].
  destruct (cache sub) as [posts|]; [by rewrite IH, <- app_assoc|].
  destruct (api sub _) as [posts|]; [by rewrite IH, <- app_assoc|apply IH].
Qed.

Lemma flat_map_agree {A B : Type} (f g : A -> list B) (l : list A) :
  (forall a, In a l -> f a = g a) -> flat_map f l = flat_map g l.
Proof.
  induction l as [|a l IH]; intros H; cbn [flat_map]; [done|].
  rewrite (H a) by (by left). rewrite IH; [done|].
  intros b Hb. apply H. by right.
Qed.

(** X16.  In [discoverFromReddit] the cache decides which subreddits are
    fetched: [fetchRedditSubreddit] is consulted for the subreddits without
    a cache entry and for no other, so two fetchers that agree on those give
    the same result, whatever they would answer for a cached subreddit.  A
    subreddit with neither entry nor answer contributes nothing and does not
    stop the others: the result is the slice of what the subreddits
    contribute one after the other. *)
Theorem reddit_cache_decides (now limit : Z)
    (cache : string -> option (list RedditPost))
    (api api' : string -> Z -> option (list RedditPost)) :
  (forall sub, In sub subreddits -> cache sub = None ->
     api sub (ceil_div limit (Z.of_nat (length subreddits)))
     = api' sub (ceil_div limit (Z.of_nat (length subreddits)))) ->
  discoverFromReddit cache api now limit = discoverFromReddit cache api' now limit /\
  discoverFromReddit cache api now limit
  = Js.slice0 limit
      (flat_map (fun sub =>
                   match cache sub with
                   | Some posts => parseRedditContent now posts sub
                   | None =>
                       match api sub (ceil_div limit (Z.of_nat (length subreddits))) with
                       | Some posts => parseRedditContent now posts sub
                       | None => []
                       end
                   end) subreddits).
Proof.
  intros Hagree. unfold discoverFromReddit. rewrite !reddit_loop_flat_map.
  cbn [app]. split; [|reflexivity]. f_equal.
  apply flat_map_agree. intros sub Hin.
  destruct (cache sub) as [posts|] eqn:Hc; [reflexivity|].
  by rewrite (Hagree sub Hin Hc).
Qed.

(** X16: the theorem at a cache that holds [cats], for a Reddit that
    answers nothing and one that would answer for [cats] alone. *)
Lemma reddit_cache_decides_witness :
  (forall sub, In sub subreddits -> Scenarios.cats_cached sub = None ->
     Scenarios.no_reddit sub (ceil_div 10 (Z.of_nat (length subreddits)))
     = Scenarios.reddit_cats_only sub (ceil_div 10 (Z.of_nat (length subreddits)))) /\
  discoverFromReddit Scenarios.cats_cached Scenarios.no_reddit Scenarios.noon 10
  = discoverFromReddit Scenarios.cats_cached Scenarios.reddit_cats_only Scenarios.noon 10 /\
  discoverFromReddit Scenarios.cats_cached Scenarios.no_reddit Scenarios.noon 10
  = Js.slice0 10
      (flat_map (fun sub =>
                   match Scenarios.cats_cached sub with
                   | Some posts => parseRedditContent Scenarios.noon posts sub
                   | None =>
                       match Scenarios.no_reddit sub
                               (ceil_div 10 (Z.of_nat (length subreddits))) with
                       | Some posts => parseRedditContent Scenarios.noon posts sub
                       | None => []
                       end
                   end) subreddits).
Proof.
  assert (H : forall sub, In sub subreddits -> Scenarios.cats_cached sub = None ->
     Scenarios.no_reddit sub (ceil_div 10 (Z.of_nat (length subreddits)))
     = Scenarios.reddit_cats_only sub (ceil_div 10 (Z.of_nat (length subreddits)))).
  { intros sub Hin Hc. unfold Scenarios.cats_cached in Hc.
    unfold Scenarios.reddit_cats_only, Scenarios.no_reddit.
    by destruct (String.eqb sub "cats"). }
  split; [exact H|].
  exact (reddit_cache_decides Scenarios.noon 10 Scenarios.cats_cached
           Scenarios.no_reddit Scenarios.reddit_cats_only H).
Defined.

Lemma news_loop_throw api now limit : forall keywords acc keyword,
  In keyword keywords -> query_fails api limit keyword ->
  exists e', news_loop api now limit keywords acc = Throw e'.
Proof.
  induction keywords as [|kw rest IH]; intros acc keyword Hin Hf; [destruct Hin|].
  cbn [news_loop]. destruct Hin as [->|Hin].
  - destruct Hf as [[e ->]|(resp & e & -> & Hok & Ha)]; cbn [bind]; [by exists e|].
    rewrite Hok, Ha. cbn. by exists e.
  - destruct (api kw _) as [resp|e1]; cbn [bind]; [|by exists e1].
    destruct (ok resp); cbn [negb]; [|by eapply IH].
    destruct (articles resp) as [data|e1]; cbn [bind]; [|by exists e1].
    by eapply IH.
Qed.

(** X17.  [discoverFromNews] returns at most [limit] items (for a limit
    that is not negative); each of them is built from a relevant article,
    has an image, is a link from the source [news] and has a quality between
    0.5 and 1.  When one of the two queries throws, or its body cannot be
    read, the result is empty, also when the other query gave articles. *)
Theorem news_items_are_relevant (now limit : Z)
    (api : string -> Z -> Outcome NewsResponse) :
  let items := discoverFromNews api now limit in
  ((0 <= limit)%Z -> (Z.of_nat (length items) <= limit)%Z) /\
  (forall item, In item items ->
     exists keyword article,
       item = news_content now keyword article /\
       isRelevantNewsArticle article = true /\
       truthy (imageUrl item) = true /\
       source item = news /\ contentType item = link /\
       5 # 10 <= quality item <= 1) /\
  ((query_fails api limit "cat" \/ query_fails api limit "cats") -> items = []).
Proof.
  intros items. split; [|split].
  - intros Hl. unfold items, discoverFromNews.
    destruct (news_loop api now limit (firstn 2 newsKeywords) []); cbn; [|lia].
    by apply slice0_length.
  - intros item Hin. apply discoverFromNews_items in Hin as (kw & article & -> & Hr).
    exists kw, article. repeat split; try done; cbn [imageUrl quality news_content].
    + unfold isRelevantNewsArticle in Hr. by apply andb_prop in Hr as [_ Hr].
    + apply news_quality_bounds.
    + apply news_quality_bounds.
  - intros Hf. unfold items, discoverFromNews.
    assert (exists e', news_loop api now limit (firstn 2 newsKeywords) [] = Throw e')
      as [e' ->]; [|reflexivity].
    destruct Hf as [Hf|Hf]; eapply news_loop_throw; try exact Hf; cbn; tauto.
Qed.
Lemma trend_sort_Sorted l :
  Sorted trend_before
    (Js.sort (fun a b => inject_Z (trend_score b - trend_score a)) l).
Proof.
  apply sort_Sorted_by; intros a b H; unfold trend_before.
  - apply Qle_bool_iff in H. change 0 with (inject_Z 0) in H.
    rewrite <- Zle_Qle in H. lia.
  - destruct (Z.le_gt_cases (trend_score a) (trend_score b)) as [Hle|Hgt]; [done|].
    exfalso. assert (H' : inject_Z (trend_score b - trend_score a) <= 0).
    { change 0 with (inject_Z 0). rewrite <- Zle_Qle. lia. }
    apply Qle_bool_iff in H'. congruence.
Qed.

(** X18.  [getTrendingContent] of the service asks the one named source
    for twice the limit (ten when none is given) and returns: the result has
    at most the limit of items (for a limit that is not negative), each of
    them an item of that source created at or after the cut-off (24 hours
    back when no time frame is given), ordered by falling
    [score + 2 * engagementCount], an absent number counting as [0]. *)
Theorem trending_content (now : Z)
    (cache : string -> option (list RedditPost))
    (api : string -> Z -> option (list RedditPost))
    (news : string -> Z -> Outcome NewsResponse)
    (source : Requested) (timeframe : option Timeframe) (limit : option Z) :
  let S := service_sources now cache api news in
  let n := default 10%Z limit in
  let cutoff := (now - hoursBack (default last_24_hours timeframe) * 3600000)%Z in
  exists content items,
    method source S (n * 2)%Z = Js.Fulfilled content /\
    getTrendingContent S now source timeframe limit = Ok items /\
    ((0 <= n)%Z -> (Z.of_nat (length items) <= n)%Z) /\
    Sorted trend_before items /\
    (forall item, In item items ->
       In item content /\ (cutoff <= createdAt item)%Z).
Proof.
  intros S n cutoff. unfold getTrendingContent. fold n.
  assert (Hful : exists content, method source S (n * 2)%Z = Js.Fulfilled content)
    by (destruct source; eexists; reflexivity).
  destruct Hful as [content Hful]. rewrite Hful.
  exists content. eexists. split; [reflexivity|]. split; [reflexivity|].
  split; [|split].
  - intros Hn. by apply slice0_length.
  - unfold Js.slice0. apply firstn_Sorted, trend_sort_Sorted.
  - intros item Hin. apply slice0_In in Hin.
    apply (Permutation_in _ (sort_Permutation _ _)) in Hin.
    apply filter_In in Hin as [Hin Hc]. split; [exact Hin|]. unfold cutoff. lia.
Qed.

Lemma trending_twitter_is_empty now cache api news timeframe limit :
  getTrendingContent (service_sources now cache api news) now ask_twitter timeframe limit
  = Ok [].
Proof.
  unfold getTrendingContent. cbn. f_equal. unfold Js.slice0. apply firstn_nil.
Qed.
End DiscoveryMore.

(** ** The identifiers of news items *)

Section HashFacts.
Import Discovery.

Lemma toInt32_congr a b k : a = b + 2 ^ 32 * k -> Js.toInt32 a = Js.toInt32 b.
Proof.
  intros ->. unfold Js.toInt32.
  replace (b + 2 ^ 32 * k + 2 ^ 31) with (b + 2 ^ 31 + k * 2 ^ 32) by lia.
  by rewrite Z_mod_plus_full.
Qed.

Lemma toInt32_eq a : exists k, Js.toInt32 a = a + 2 ^ 32 * k.
Proof.
  unfold Js.toInt32. exists (- ((a + 2 ^ 31) / 2 ^ 32)).
  pose proof (Z.div_mod (a + 2 ^ 31) (2 ^ 32) ltac:(lia)). lia.
Qed.

Lemma toInt32_idem a : Js.toInt32 (Js.toInt32 a) = Js.toInt32 a.
Proof. destruct (toInt32_eq a) as [k Hk]. by apply (toInt32_congr _ _ k). Qed.

(** One step of the hash is [31 * hash + char], brought back to 32 bits. *)
Lemma hash_step_31 h c :
  hash_step h c = Js.toInt32 (31 * h + Z.of_nat (nat_of_ascii c)).
Proof.
  unfold hash_step. rewrite Z.land_diag, toInt32_idem, Z.shiftl_mul_pow2 by lia.
  destruct (toInt32_eq h) as [k Hk].
  destruct (toInt32_eq (Js.toInt32 h * 2 ^ 5)) as [k' Hk'].
  apply (toInt32_congr _ _ (k' + 32 * k)). lia.
Qed.

Lemma hash_Aa_BB h :
  hash_step (hash_step h "A") "a" = hash_step (hash_step h "B") "B".
Proof.
  rewrite !hash_step_31.
  destruct (toInt32_eq (31 * h + Z.of_nat (nat_of_ascii "A"))) as [k Hk].
  destruct (toInt32_eq (31 * h + Z.of_nat (nat_of_ascii "B"))) as [k' Hk'].
  apply (toInt32_congr _ _ (31 * (k - k'))). rewrite Hk, Hk'.
  change (Z.of_nat (nat_of_ascii "A")) with 65.
  change (Z.of_nat (nat_of_ascii "B")) with 66.
  change (Z.of_nat (nat_of_ascii "a")) with 97. lia.
Qed.

Lemma list_ascii_app a b :
  list_ascii_of_string (a +:+ b) = list_ascii_of_string a ++ list_ascii_of_string b.
Proof.
  induction a as [|x a IH]; [done|].
  change (x :: list_ascii_of_string (a +:+ b)
          = x :: (list_ascii_of_string a ++ list_ascii_of_string b)).
  by rewrite IH.
Qed.

Lemma hashString_collision pre post :
  hashString (pre +:+ "Aa" +:+ post) = hashString (pre +:+ "BB" +:+ post).
Proof.
  unfold hashString. rewrite !list_ascii_app, !fold_left_app. cbn [list_ascii_of_string fold_left].
  by rewrite hash_Aa_BB.
Qed.

Lemma append_inj_l pre a b : pre +:+ a = pre +:+ b -> a = b.
Proof.
  induction pre as [|x pre IH]; [done|].
  change (String x (pre +:+ a) = String x (pre +:+ b) -> a = b).
  intros [= H]. by apply IH.
Qed.

(** X19.  The identifier of a news item is [news_] and a 32-bit hash of
    the address of the article, and the hash is not injective: two articles
    whose addresses differ only in [Aa] against [BB] at one place yield
    items of the same source with the same identifier and different
    addresses. *)
Theorem different_urls_same_id (now : Z) (keyword pre post : string)
    (a b : NewsArticle) :
  article_url a = pre +:+ "Aa" +:+ post ->
  article_url b = pre +:+ "BB" +:+ post ->
  let x := news_content now keyword a in
  let y := news_content now keyword b in
  id x = id y /\ source x = source y /\ sourceUrl x <> sourceUrl y.
Proof.
  intros Ha Hb x y. unfold x, y. cbn [id source sourceUrl news_content].
  rewrite Ha, Hb. split; [|split]; [|done|].
  - by rewrite hashString_collision.
  - intros H. apply append_inj_l in H. discriminate.
Qed.
(** X19: the theorem at two addresses of one site. *)
Lemma different_urls_same_id_witness :
  let a := Scenarios.article_at "https://news.example.com/Aa.html" in
  let b := Scenarios.article_at "https://news.example.com/BB.html" in
  article_url a = "https://news.example.com/" +:+ "Aa" +:+ ".html" /\
  article_url b = "https://news.example.com/" +:+ "BB" +:+ ".html" /\
  let x := news_content Scenarios.noon "cat" a in
  let y := news_content Scenarios.noon "cat" b in
  id x = id y /\ source x = source y /\ sourceUrl x <> sourceUrl y.
Proof.
  intros a b.
  assert (Ha : article_url a = "https://news.example.com/" +:+ "Aa" +:+ ".html")
    by reflexivity.
  assert (Hb : article_url b = "https://news.example.com/" +:+ "BB" +:+ ".html")
    by reflexivity.
  split; [exact Ha|]. split; [exact Hb|].
  exact (different_urls_same_id Scenarios.noon "cat" "https://news.example.com/" ".html"
           a b Ha Hb).
Defined.

End HashFacts.

(** ** The aggregation of the sources *)

Section AggregationFacts.
Import Discovery.

(** X20.  For a limit that is not negative, the result of
    [discoverContent] has at most [maxItems] items, is ordered by the key of
    the sort, and holds nothing but items that a requested source returned
    when asked for [ceil(maxItems / sources.length)] items. *)
Theorem discoverContent_result (S : Sources) (now maxItems : Z)
    (sources : list Requested) :
  0 <= maxItems ->
  let result := discoverContent S now maxItems sources in
  Z.of_nat (length result) <= maxItems /\
  Sorted (ranked_before now) result /\
  (forall item, In item result ->
     exists k, includes k sources = true /\
               In item (items_of S (ceil_div maxItems (Z.of_nat (length sources))) k)).
Proof.
  intros Hm result. split; [by apply discoverContent_length|].
  split; [apply discoverContent_Sorted|].
  intros item Hin. unfold result, discoverContent in Hin. apply slice0_In in Hin.
  apply (Permutation_in _ (sort_Permutation _ _)) in Hin.
  unfold promises, fulfilled_values in Hin. rewrite !flat_map_app in Hin.
  unfold items_of.
  repeat (apply in_app_or in Hin as [Hin|Hin]).
  - exists ask_reddit. destruct (includes ask_reddit sources); [|destruct Hin].
    split; [done|]. cbn in Hin. by rewrite app_nil_r in Hin.
  - exists ask_twitter. destruct (includes ask_twitter sources); [|destruct Hin].
    split; [done|]. cbn in Hin. by rewrite app_nil_r in Hin.
  - exists ask_news. destruct (includes ask_news sources); [|destruct Hin].
    split; [done|]. cbn in Hin. by rewrite app_nil_r in Hin.
Qed.

(** X20: the theorem at a request for Reddit and news. *)
Lemma discoverContent_result_witness :
  0 <= 5 /\
  let result := discoverContent Scenarios.twitter_down Scenarios.noon 5
                  [ask_reddit; ask_news] in
  Z.of_nat (length result) <= 5 /\
  Sorted (ranked_before Scenarios.noon) result /\
  (forall item, In item result ->
     exists k, includes k [ask_reddit; ask_news] = true /\
               In item (items_of Scenarios.twitter_down
                          (ceil_div 5 (Z.of_nat (length [ask_reddit; ask_news]))) k)).
Proof.
  assert (H : 0 <= 5) by lia. split; [exact H|].
  exact (discoverContent_result Scenarios.twitter_down Scenarios.noon 5
           [ask_reddit; ask_news] H).
Defined.

(** X21.  [discoverContent] calls the sources that were requested and no
    other: two services whose requested sources settle alike for the limit
    [ceil(maxItems / sources.length)] give the same result, however their
    other sources behave. *)
Theorem only_requested_sources_matter (S S' : Sources) (now maxItems : Z)
    (sources : list Requested) :
  (forall k, includes k sources = true ->
     method k S (ceil_div maxItems (Z.of_nat (length sources)))
     = method k S' (ceil_div maxItems (Z.of_nat (length sources)))) ->
  discoverContent S now maxItems sources = discoverContent S' now maxItems sources.
Proof.
  intros H. unfold discoverContent, promises.
  pose proof (H ask_reddit) as Hr. pose proof (H ask_twitter) as Ht.
  pose proof (H ask_news) as Hn. cbn [method] in *.
  destruct (includes ask_reddit sources), (includes ask_twitter sources),
           (includes ask_news sources);
    rewrite ?Hr, ?Ht, ?Hn by done; reflexivity.
Qed.
(** X21: the theorem at a request that leaves Twitter out, for a Twitter
    that fails and one that answers. *)
Lemma only_requested_sources_matter_witness :
  let S' := Scenarios.fixed_sources (Js.Fulfilled [Scenarios.photo])
              (Js.Fulfilled [Scenarios.newer]) (Js.Fulfilled [Scenarios.story]) in
  (forall k, includes k [ask_reddit; ask_news] = true ->
     method k Scenarios.twitter_down
       (ceil_div 5 (Z.of_nat (length [ask_reddit; ask_news])))
     = method k S' (ceil_div 5 (Z.of_nat (length [ask_reddit; ask_news])))) /\
  discoverContent Scenarios.twitter_down Scenarios.noon 5 [ask_reddit; ask_news]
  = discoverContent S' Scenarios.noon 5 [ask_reddit; ask_news].
Proof.
  intros S'.
  assert (H : forall k, includes k [ask_reddit; ask_news] = true ->
     method k Scenarios.twitter_down
       (ceil_div 5 (Z.of_nat (length [ask_reddit; ask_news])))
     = method k S' (ceil_div 5 (Z.of_nat (length [ask_reddit; ask_news])))).
  { intros k. destruct k; [reflexivity|discriminate|reflexivity]. }
  split; [exact H|].
  exact (only_requested_sources_matter Scenarios.twitter_down S' Scenarios.noon 5
           [ask_reddit; ask_news] H).
Defined.

End AggregationFacts.

(** ** Histories of the scheduling queue *)

Section QueueHistory.
Import Database.

(** What an update does to one row. *)
Lemma find_map_id (f : SchedulingQueueItem -> SchedulingQueueItem) i l :
  (forall q, id (f q) = id q) ->
  find (fun q => id q =? i) (map f l) = option_map f (find (fun q => id q =? i) l).
Proof.
  intros Hf. induction l as [|q l IH]; cbn [map find option_map]; [done|].
  rewrite Hf. destruct (id q =? i); [done|exact IH].
Qed.

Lemma find_app_Some {A} (p : A -> bool) l l' x :
  find p l = Some x -> find p (l ++ l') = Some x.
Proof.
  induction l as [|y l IH]; cbn [app find]; [discriminate|].
  destruct (p y); [done|exact IH].
Qed.

Lemma step_item i o db q :
  getSchedulingQueueItem i db = Ok q ->
  exists q', getSchedulingQueueItem i (step db o) = Ok q' /\
             carries_on (if is_failure i o then 1 else 0) q q'.
Proof.
  unfold getSchedulingQueueItem. intros Hq.
  destruct (find _ (scheduling_queue db)) as [q0|] eqn:Hfind; [|discriminate].
  injection Hq as ->.
  destruct o as [now now' ts c t|now ts j st fb err]; cbn [step is_failure].
  - exists q. split; [|unfold carries_on; repeat split; (done || lia)].
    unfold scheduleContent.
    destruct (foreign_keys db && negb (has_content c db)); cbn [snd];
      [by rewrite Hfind|].
    unfold updateContentStatus. cbn [scheduling_queue].
    by rewrite (find_app_Some _ _ _ _ Hfind).
  - unfold updateSchedulingQueueStatus. cbn [scheduling_queue].
    rewrite find_map_id.
    2:{ intros q0. destruct (id q0 =? j); [|done].
        unfold queue_trigger. by destruct (String.eqb _ _). }
    rewrite Hfind. cbn [option_map]. eexists. split; [reflexivity|].
    apply find_some in Hfind as [_ Hi]. apply Z.eqb_eq in Hi.
    destruct (Z.eqb_spec (id q) j) as [E|E].
    + replace (j =? i) with true by (symmetry; lia). cbn [andb].
      unfold carries_on, fixed_columns, queue_trigger.
      destruct (String.eqb _ _); cbn;
        destruct (truthy err), (truthy fb) eqn:Hfb; repeat split; try done; lia.
    + replace (j =? i) with false by (symmetry; lia). cbn [andb].
      unfold carries_on. repeat split; (done || lia).
Qed.

Lemma run_item i ops : forall db q,
  getSchedulingQueueItem i db = Ok q ->
  exists q', getSchedulingQueueItem i (run ops db) = Ok q' /\
             carries_on (failures i ops) q q'.
Proof.
  induction ops as [|o ops IH]; intros db q Hq.
  - exists q. split; [done|]. unfold carries_on, failures. cbn.
    repeat split; (done || lia).
  - destruct (step_item i o db q Hq) as (q1 & H1 & Hc1 & Hr1 & Hf1).
    destruct (IH (step db o) q1 H1) as (q2 & H2 & Hc2 & Hr2 & Hf2).
    exists q2. split; [exact H2|]. unfold carries_on, failures in *.
    cbn [List.filter]. destruct (is_failure i o); cbn [length];
      repeat split; try congruence; try tauto; lia.
Qed.

(** X22.  A queue item that exists is still there after any history of
    [scheduleContent] and [updateSchedulingQueueStatus] calls: no operation
    deletes it.  Its id, content id, scheduled time and creation time are the
    ones of its INSERT, its retry count has grown by exactly the number of
    updates of the item that carried an error message, and a post id, once
    set, is never removed. *)
Theorem queue_item_history (i : Z) (ops : list Op) (db : DB) (q : SchedulingQueueItem) :
  getSchedulingQueueItem i db = Ok q ->
  exists q',
    getSchedulingQueueItem i (run ops db) = Ok q' /\
    fixed_columns q' = fixed_columns q /\
    retry_count q' = retry_count q + failures i ops /\
    (truthy (fb_post_id q) = true -> truthy (fb_post_id q') = true).
Proof. intros Hq. by apply run_item. Qed.

(** X22: the theorem at the scheduled video, posted after one failure. *)
Lemma queue_item_history_witness :
  let ops := [OpUpdate Scenarios.afternoon "2025-01-02 14:00:00" 1 failed None
                (Some "timeout"%string);
              OpUpdate Scenarios.evening "2025-01-02 20:00:00" 1 posted
                (Some "fb_1"%string) None] in
  exists q,
    getSchedulingQueueItem 1 Scenarios.db1 = Ok q /\
    exists q',
      getSchedulingQueueItem 1 (run ops Scenarios.db1) = Ok q' /\
      fixed_columns q' = fixed_columns q /\
      retry_count q' = retry_count q + failures 1 ops /\
      (truthy (fb_post_id q) = true -> truthy (fb_post_id q') = true).
Proof.
  intros ops. eexists.
  assert (H : getSchedulingQueueItem 1 Scenarios.db1 = Ok _) by reflexivity.
  split; [exact H|].
  exact (queue_item_history 1 ops Scenarios.db1 _ H).
Defined.


(** An operation keeps the ids of the queue, or adds a larger one. *)
Lemma step_ids o db :
  map id (scheduling_queue (step db o)) = map id (scheduling_queue db) \/
  exists j, map id (scheduling_queue (step db o)) = map id (scheduling_queue db) ++ [j] /\
            Forall (fun i => i < j) (map id (scheduling_queue db)).
Proof.
  destruct o as [now now' ts c t|now ts j st fb err]; cbn [step].
  - unfold scheduleContent.
    destruct (foreign_keys db && negb (has_content c db)); cbn [snd]; [by left|].
    right. exists (next_rowid db). unfold updateContentStatus. cbn [scheduling_queue].
    rewrite map_app. split; [done|].
    apply List.Forall_forall. intros i Hi. apply in_map_iff in Hi as (q & <- & Hq).
    pose proof (rowid_bound (scheduling_queue db) (sqlite_sequence db)) as Hb.
    rewrite List.Forall_forall in Hb. specialize (Hb q Hq). unfold next_rowid.
    cbn in Hb. lia.
  - left. unfold updateSchedulingQueueStatus.
    cbn [scheduling_queue]. rewrite map_map. apply map_ext. intros q.
    destruct (id q =? j); [|done]. unfold queue_trigger. by destruct (String.eqb _ _).
Qed.

Lemma NoDup_snoc (l : list Z) j : NoDup l -> Forall (fun i => i < j) l -> NoDup (l ++ [j]).
Proof.
  intros Hnd Hlt. induction Hnd as [|x l Hx Hl IH]; cbn.
  - constructor; [|constructor]. intros H. inversion H.
  - inversion Hlt as [|? ? Hxj Hrest]; subst.
    constructor; [|by apply IH].
    intros H. apply list_elem_of_In in H. apply in_app_or in H as [H|[H|[]]].
    + apply Hx. by apply list_elem_of_In.
    + lia.
Qed.

(** X23.  The ids of the queue stay distinct through any history, and the
    ids present at its start remain, in their order: an operation changes no
    id, and an INSERT takes an id above all present ones. *)
Theorem queue_ids_stay_distinct (ops : list Op) (db : DB) :
  NoDup (map id (scheduling_queue db)) ->
  NoDup (map id (scheduling_queue (run ops db))) /\
  exists rest,
    map id (scheduling_queue (run ops db)) = map id (scheduling_queue db) ++ rest.
Proof.
  revert db. induction ops as [|o ops IH]; intros db Hnd.
  - split; [done|]. exists []. by rewrite app_nil_r.
  - cbn [run fold_left]. fold (run ops (step db o)).
    destruct (step_ids o db) as [E|(j & E & Hj)].
    + destruct (IH (step db o)) as [H1 [rest H2]]; [by rewrite E|].
      split; [exact H1|]. exists rest. by rewrite H2, E.
    + destruct (IH (step db o)) as [H1 [rest H2]]; [rewrite E; by apply NoDup_snoc|].
      split; [exact H1|]. exists (j :: rest). rewrite H2, E. by rewrite <- app_assoc.
Qed.
(** X23: the theorem at a second scheduling of the video. *)
Lemma queue_ids_stay_distinct_witness :
  let ops := [OpSchedule Scenarios.afternoon Scenarios.afternoon "2025-01-02 14:00:00"
                "c1" Scenarios.evening] in
  NoDup (map id (scheduling_queue Scenarios.db1)) /\
  NoDup (map id (scheduling_queue (run ops Scenarios.db1))) /\
  exists rest,
    map id (scheduling_queue (run ops Scenarios.db1))
    = map id (scheduling_queue Scenarios.db1) ++ rest.
Proof.
  intros ops.
  assert (H : NoDup (map id (scheduling_queue Scenarios.db1))).
  { apply NoDup_cons_2; [|apply NoDup_nil_2]. intros H. inversion H. }
  split; [exact H|].
  exact (queue_ids_stay_distinct ops Scenarios.db1 H).
Defined.

End QueueHistory.

(** ** The content table *)

Section ContentFacts.
Import Database.

Lemma find_content_app cid l row :
  find (fun r => String.eqb (content_id_of r) cid) (l ++ [row]) =
  match find (fun r => String.eqb (content_id_of r) cid) l with
  | Some r => Some r
  | None => if String.eqb (content_id_of row) cid then Some row else None
  end.
Proof.
  induction l as [|r l IH]; cbn [app find]; [done|].
  destruct (String.eqb (content_id_of r) cid); [done|exact IH].
Qed.

Lemma has_content_find cid db :
  has_content cid db = false ->
  find (fun r => String.eqb (content_id_of r) cid) (content db) = None.
Proof.
  unfold has_content. induction (content db) as [|r l IH]; cbn [existsb find]; [done|].
  destruct (String.eqb (content_id_of r) cid); [discriminate|exact IH].
Qed.

(** X24.  [createContent] with an id that the table holds already throws
    and changes nothing.  Otherwise it appends one row and returns it as
    [getContentById] reads it back: with the given id (or the fresh UUID when
    none or an empty one is given), the status [pending] and the type [text]
    unless given, and both time stamps equal to the time of the call; the
    rows of all other ids read as before. *)
Theorem createContent_round_trip (uuid now : string) (c : PartialContent) (db : DB) :
  let cid := if truthy (p_id c) then default uuid (p_id c) else uuid in
  let '(result, db') := createContent uuid now c db in
  if has_content cid db
  then (exists e, result = Throw e) /\ db' = db
  else
    exists row,
      result = Ok row /\ getContentById cid db' = Ok row /\
      content db' = content db ++ [row] /\
      content_id_of row = cid /\
      content_status row = default content_pending (p_status c) /\
      type row = default text (p_type c) /\
      content_created_at row = now /\ content_updated_at row = now /\
      (forall other, other <> cid -> getContentById other db' = getContentById other db).
Proof.
  intros cid. unfold createContent.
  assert (Hcid : match p_id c with
                 | Some i => if String.eqb i "" then uuid else i
                 | None => uuid
                 end = cid).
  { unfold cid, truthy. destruct (p_id c) as [i|]; [|done]. cbn.
    by destruct (String.eqb i ""). }
  rewrite Hcid. destruct (has_content cid db) eqn:Hhas; cbv beta iota zeta.
  - split; [eexists; reflexivity|reflexivity].
  - eexists. unfold getContentById. cbn [content].
    rewrite find_content_app, (has_content_find _ _ Hhas). cbn [content_id_of].
    rewrite String.eqb_refl. repeat split.
    intros other Hne. rewrite find_content_app.
    destruct (find _ (content db)); [done|]. cbn [content_id_of].
    destruct (String.eqb_spec cid other); [congruence|done].
Qed.

Lemma content_trigger_id ts old new :
  content_id_of (content_trigger ts old new) = content_id_of new.
Proof. unfold content_trigger. by destruct (String.eqb _ _). Qed.

Lemma find_content_map cid (f : ContentRecord -> ContentRecord) l :
  (forall r, content_id_of (f r) = content_id_of r) ->
  find (fun r => String.eqb (content_id_of r) cid) (map f l)
  = option_map f (find (fun r => String.eqb (content_id_of r) cid) l).
Proof.
  intros Hf. induction l as [|r l IH]; cbn [map find option_map]; [done|].
  rewrite Hf. destruct (String.eqb (content_id_of r) cid); [done|exact IH].
Qed.

(** X25.  [updateContentStatus] never touches the scheduling queue nor the
    content of another id.  For an id that is absent it changes nothing and
    raises no error.  For a present one the row then has the given status;
    [posted_at] is set for the status [posted] and kept otherwise; the
    metadata column takes the JSON text of the metadata when that is truthy
    and is kept when the metadata is left out or falsy ([null], [false],
    [0], the empty string); and the creation time is kept. *)
Theorem updateContentStatus_effect (now now_posted ts cid : string)
    (st : ContentStatus) (metadata : option Json.Value) (db : DB) :
  let db' := updateContentStatus now now_posted ts cid st metadata db in
  scheduling_queue db' = scheduling_queue db /\
  (forall other, other <> cid -> getContentById other db' = getContentById other db) /\
  match getContentById cid db with
  | Throw _ => db' = db
  | Ok r =>
      exists r',
        getContentById cid db' = Ok r' /\
        content_status r' = st /\
        posted_at r' = match st with
                       | content_posted => Some now_posted
                       | _ => posted_at r
                       end /\
        generation_metadata r' =
          match metadata with
          | Some (Json.JNull | Json.JBool false | Json.JNumber 0 | Json.JString "")
          | None => generation_metadata r
          | Some m => Some (Json.stringify m)
          end /\
        content_created_at r' = content_created_at r
  end.
Proof.
  intros db'. split; [done|]. split.
  - intros other Hne. unfold db', getContentById, updateContentStatus. cbn [content].
    rewrite find_content_map.
    2:{ intros r. destruct (String.eqb _ cid); [|done]. by rewrite content_trigger_id. }
    destruct (find _ (content db)) as [r|] eqn:Hf; [|done]. cbn [option_map].
    apply find_some in Hf as [_ Hr]. apply String.eqb_eq in Hr.
    destruct (String.eqb_spec (content_id_of r) cid); [congruence|done].
  - unfold getContentById.
    destruct (find _ (content db)) as [r|] eqn:Hf.
    + unfold db', updateContentStatus. cbn [content]. rewrite find_content_map.
      2:{ intros r0. destruct (String.eqb _ cid); [|done]. by rewrite content_trigger_id. }
      rewrite Hf. cbn [option_map]. eexists. split; [reflexivity|].
      apply find_some in Hf as [_ Hr]. rewrite Hr.
      assert (Hm : match metadata with
                   | Some m => if Json.truthy m then Some (Json.stringify m)
                               else generation_metadata r
                   | None => generation_metadata r
                   end
                   = match metadata with
                     | Some (Json.JNull | Json.JBool false | Json.JNumber 0
                            | Json.JString "")
                     | None => generation_metadata r
                     | Some m => Some (Json.stringify m)
                     end).
      { destruct metadata as [[|[|]|[|n|n]|[|a s]|j]|]; reflexivity. }
      unfold content_trigger. cbn.
      destruct (String.eqb now (content_updated_at r)); cbn; rewrite Hm; auto.
    + unfold db', updateContentStatus. destruct db as [cs q seq fk]. cbn in *. f_equal.
      rewrite <- (map_id cs) at 2. apply map_ext_in. intros r Hin.
      destruct (String.eqb (content_id_of r) cid) eqn:E; [|done].
      by rewrite (find_none _ _ Hf r Hin) in E.
Qed.

(** The metadata [0] is not written; the object [{}] is. *)
Example metadata_zero_is_not_written :
  map generation_metadata
    (content (updateContentStatus Scenarios.morning Scenarios.morning
                Scenarios.morning_timestamp "c1" content_ready
                (Some (Json.JNumber 0)) Scenarios.db0)) = [None] /\
  map generation_metadata
    (content (updateContentStatus Scenarios.morning Scenarios.morning
                Scenarios.morning_timestamp "c1" content_ready
                (Some (Json.JObject "{}")) Scenarios.db0)) = [Some "{}"%string].
Proof. split; reflexivity. Qed.

End ContentFacts.
